(** * Numerical differentiation and integration: the [NumMethods] class

    A shallow embedding of [nanalysis/num_methods.py].  The Python class binds
    a target function once ([self.func]) and offers finite-difference formulas,
    fixed-step quadrature rules and two adaptive integrators.

    The embedding is generic in the arithmetic (class [Arith]): the control
    flow of every method is the same whatever the numbers are.  Two instances
    are given: binary64 numbers, which is what Python computes with and which
    evaluates inside Rocq, and the real numbers, where the algebraic identities
    of the quadrature rules hold exactly. *)

From Stdlib Require Import PrimFloat FloatOps SpecFloat.
From Stdlib Require Import ZArith List String Lia Reals Lra.
From stdpp Require Import base list.

Local Open Scope Z_scope.

(** ** Arithmetic *)

(** The operations the source applies to its numbers.  [of_Z] is the
    conversion Python applies to an integer operand ([2*h], [i*h], [10*tol]),
    [nabs] is the builtin [abs], [nsqrt] is [np.sqrt], [nlt] is [<],
    [is_zero] is the test behind [ZeroDivisionError], and [is_inf], which is
    [math.isinf], is the test behind the [OverflowError] of [**]. *)
Class Arith := {
  num : Type;
  of_Z : Z -> num;
  nadd : num -> num -> num;
  nsub : num -> num -> num;
  nmul : num -> num -> num;
  ndiv : num -> num -> num;
  nneg : num -> num;
  nabs : num -> num;
  nsqrt : num -> num;
  nlt : num -> num -> bool;
  is_zero : num -> bool;
  is_inf : num -> bool
}.

Declare Scope num_scope.
Delimit Scope num_scope with num.
Notation "x +. y" := (nadd x y) (at level 50, left associativity) : num_scope.
Notation "x -. y" := (nsub x y) (at level 50, left associativity) : num_scope.
Notation "x *. y" := (nmul x y) (at level 40, left associativity) : num_scope.
Notation "x /. y" := (ndiv x y) (at level 40, left associativity) : num_scope.
Notation "x <.? y" := (nlt x y) (at level 70, no associativity) : num_scope.
Notation "# z" := (of_Z z) (at level 8, format "# z") : num_scope.
Local Open Scope num_scope.

(** Python's [int -> float] conversion rounds to the nearest binary64. *)
Definition float_of_Z (z : Z) : float :=
  SF2Prim (binary_normalize prec emax z 0 false).

#[export] Instance float_arith : Arith := {|
  num := float;
  of_Z := float_of_Z;
  nadd := PrimFloat.add;
  nsub := PrimFloat.sub;
  nmul := PrimFloat.mul;
  ndiv := PrimFloat.div;
  nneg := PrimFloat.opp;
  nabs := PrimFloat.abs;
  nsqrt := PrimFloat.sqrt;
  nlt := PrimFloat.ltb;
  is_zero := PrimFloat.is_zero;
  is_inf := PrimFloat.is_infinity
|}.

Definition real_arith : Arith := {|
  num := R;
  of_Z := IZR;
  nadd := Rplus;
  nsub := Rminus;
  nmul := Rmult;
  ndiv := Rdiv;
  nneg := Ropp;
  nabs := Rabs;
  nsqrt := sqrt;
  nlt := fun x y => if Rlt_dec x y then true else false;
  is_zero := fun x => if Req_dec_T x 0 then true else false;
  is_inf := fun _ => false
|}.

(** ** Effects *)

(** The exceptions the methods themselves can raise: an index outside a
    NumPy row, a negative dimension given to [np.zeros], a division of Python
    numbers by zero, a power of a Python float that is out of range. *)
Inductive exn := IndexError | ValueError | ZeroDivisionError | OverflowError.

(** [Timeout] is not a Python outcome: it marks a loop or a recursion of the
    model that was given too little fuel. *)
Inductive res (X : Type) :=
| Ok (x : X)
| Raise (e : exn)
| Timeout.
Arguments Ok {X} x.
Arguments Raise {X} e.
Arguments Timeout {X}.

Section NumMethods.
Context {A : Arith}.

(** What a call does besides computing its result, in the order it happens.
    [Call x] is an evaluation [self.func(x)] and [Print s] a line written by
    [print].  The other events only observe the run: [Slot j] is a read or a
    write of slot [j] of one of the rows of [simp_adpt], [Ptr j] an assignment
    of [j] to its stack pointer [i], [Iter] the start of an iteration of its
    [while] loop, and [Test d err tol ok] an acceptance test [err < tol] made
    at depth [d] with outcome [ok]. *)
Inductive event :=
| Call (x : num)
| Print (s : string)
| Slot (j : Z)
| Ptr (j : Z)
| Iter
| Test (d : Z) (err tol : num) (ok : bool).

(** An instance of the class: [__init__] sets its one attribute. *)
Record NumMethods := { func : num -> num }.

(** A method body: it receives the instance, and yields an outcome, the
    instance as it left it, and the events in order. *)
Definition M (X : Type) : Type := NumMethods -> res X * NumMethods * list event.

Definition ret {X} (x : X) : M X := fun self => (Ok x, self, []).

Definition bind {X Y} (m : M X) (k : X -> M Y) : M Y := fun self =>
  match m self with
  | (Ok x, self', t) =>
      match k x self' with (r, self'', t') => (r, self'', t ++ t') end
  | (Raise e, self', t) => (Raise e, self', t)
  | (Timeout, self', t) => (Timeout, self', t)
  end.

Definition emit (ev : event) : M unit := fun self => (Ok tt, self, [ev]).
Definition raise {X} (e : exn) : M X := fun self => (Raise e, self, []).
Definition timeout {X} : M X := fun self => (Timeout, self, []).

(** [self.func(x)] *)
Definition call (x : num) : M num := fun self => (Ok (func self x), self, [Call x]).

(** [print(s)] *)
Definition print (s : string) : M unit := emit (Print s).

End NumMethods.

Notation "'let*' x ':=' m 'in' k" := (bind m (fun x => k))
  (at level 10, x name, m at level 100, k at level 200,
   format "'[v' 'let*'  x  ':='  m  'in' '/' k ']'") : num_scope.

(** ** The methods *)

Section Methods.
Context {A : Arith}.

(** [x / y] on Python numbers. *)
Definition pydiv (x y : num) : M num :=
  if is_zero y then raise ZeroDivisionError else ret (x /. y).

(** [10**(-k)] *)
Definition ten_to_minus (k : Z) : num := #1 /. #(10 ^ k).

(** [range(lo, hi)] *)
Definition range (lo hi : Z) : list Z :=
  map (fun k => lo + Z.of_nat k) (seq 0 (Z.to_nat (hi - lo))).

(** [for x in xs: s = body(x, s)] *)
Fixpoint for_each {X S} (xs : list X) (body : X -> S -> M S) (s : S) : M S :=
  match xs with
  | [] => ret s
  | x :: xs' => let* s' := body x s in for_each xs' body s'
  end.

(** *** Differentiation *)

Definition default_h : num := ten_to_minus 5.

Definition for_diff (x h : num) : M num :=
  let* f1 := call (x +. h) in
  let* f0 := call x in
  pydiv (f1 -. f0) h.

Definition end_3diff (x h : num) : M num :=
  let* f0 := call x in
  let* f1 := call (x +. h) in
  let* f2 := call (x +. #2 *. h) in
  pydiv (#(-3) *. f0 +. #4 *. f1 -. f2) (#2 *. h).

Definition mid_3diff (x h : num) : M num :=
  let* f1 := call (x +. h) in
  let* f0 := call (x -. h) in
  pydiv (f1 -. f0) (#2 *. h).

Definition end_5diff (x h : num) : M num :=
  let* f0 := call x in
  let* f1 := call (x +. h) in
  let* f2 := call (x +. #2 *. h) in
  let* f3 := call (x +. #3 *. h) in
  let* f4 := call (x +. #4 *. h) in
  pydiv (#(-25) *. f0 +. #48 *. f1 -. #36 *. f2 +. #16 *. f3 -. #3 *. f4)
        (#12 *. h).

Definition mid_5diff (x h : num) : M num :=
  let* f0 := call (x -. #2 *. h) in
  let* f1 := call (x -. h) in
  let* f2 := call (x +. h) in
  let* f3 := call (x +. #2 *. h) in
  pydiv (f0 -. #8 *. f1 +. #8 *. f2 -. f3) (#12 *. h).

(** [x ** 2] on a Python float: the square, taken correctly rounded, which is
    the product [x * x]; when [x] is finite and its square is not, Python
    raises [OverflowError] instead of returning an infinity. *)
Definition pysquare (x : num) : M num :=
  let y := x *. x in
  if is_inf y && negb (is_inf x) then raise OverflowError else ret y.

(** The numerator is evaluated before [h**2], and [h**2] before the
    division. *)
Definition second_diff (x h : num) : M num :=
  let* f0 := call (x -. h) in
  let* f1 := call x in
  let* f2 := call (x +. h) in
  let* h2 := pysquare h in
  pydiv (f0 -. #2 *. f1 +. f2) h2.

(** *** Fixed-step integration *)

Definition trapezoid_rule (a b : num) : M num :=
  let* fa := call a in
  let* fb := call b in
  ret ((b -. a) /. #2 *. (fa +. fb)).

Definition trap_comp (a b : num) (n : Z) : M num :=
  let* h := pydiv (b -. a) #n in
  let* mid_terms :=
    for_each (range 0 n)
      (fun i mid_terms => let* fx := call (a +. #i *. h) in ret (mid_terms +. fx))
      #0 in
  let* fa := call a in
  let* fb := call b in
  ret (h /. #2 *. (fa +. #2 *. mid_terms +. fb)).

Definition simpsons_rule (a b : num) : M num :=
  let h := (b -. a) /. #2 in
  let* fa := call a in
  let* fm := call ((b +. a) /. #2) in
  let* fb := call b in
  ret (h /. #3 *. (fa +. #4 *. fm +. fb)).

Definition simp_comp (a b : num) (n : Z) : M num :=
  let* h := pydiv (b -. a) #n in
  let* fa := call a in
  let* fb := call b in
  let x_0 := fa +. fb in
  let* sums :=
    for_each (range 1 n)
      (fun i '(x_odd, x_even) =>
         let x := a +. #i *. h in
         if i mod 2 =? 0
         then let* fx := call x in ret (x_odd, x_even +. fx)
         else let* fx := call x in ret (x_odd +. fx, x_even))
      (#0, #0) in
  let '(x_odd, x_even) := sums in
  ret (h *. (x_0 +. #2 *. x_even +. #4 *. x_odd) /. #3).

(** *** Two-point Gaussian quadrature *)

Definition gquad (a b : num) : M num :=
  let* f1 := call (#1 /. #2 *. ((b -. a) *. (nneg (nsqrt #3) /. #3) +. a +. b)) in
  let* f2 := call (#1 /. #2 *. ((b -. a) *. (nsqrt #3 /. #3) +. a +. b)) in
  ret ((f1 +. f2) *. (b -. a) /. #2).

(** The acceptance test [err < tol] of an adaptive integrator at depth [d]. *)
Definition test (d : Z) (err tol : num) : M bool :=
  let ok := err <.? tol in
  let* _ := emit (Test d err tol ok) in
  ret ok.

(** *** Adaptive Gaussian quadrature *)

Definition default_level : Z := 0.
Definition default_current_sum : num := #0.
Definition default_n_0 : Z := 20.
Definition gquad_default_tol : num := ten_to_minus 7.

(** The recursive calls of the source name [level], [current_sum] and [n_0]
    and leave [tol] out, so they run with its default.  [fuel] bounds the
    nesting of the calls. *)
Fixpoint gquad_adpt_fuel (fuel : nat) (a b : num) (level : Z)
    (current_sum : num) (n_0 : Z) (tol : num) : M num :=
  match fuel with
  | O => timeout
  | S fuel' =>
      let level := level + 1 in
      let* one_gauss := gquad a b in
      let c := (a +. b) /. #2 in
      let* g1 := gquad a c in
      let* g2 := gquad c b in
      let two_gauss := g1 +. g2 in
      if level >? n_0 then
        let* _ := print "Max depth reached" in
        ret current_sum
      else
        let* ok := test level (nabs (one_gauss -. two_gauss)) tol in
        if ok then ret (current_sum +. two_gauss)
        else
          let* current_sum :=
            gquad_adpt_fuel fuel' a c level current_sum n_0 gquad_default_tol in
          gquad_adpt_fuel fuel' c b level current_sum n_0 gquad_default_tol
  end.

(** A call at [level] nests at most [n_0 - level + 1] calls. *)
Definition gquad_adpt (a b : num) (level : Z) (current_sum : num) (n_0 : Z)
    (tol : num) : M num :=
  gquad_adpt_fuel (S (Z.to_nat (n_0 - level))) a b level current_sum n_0 tol.

(** *** NumPy rows *)

(** The position an index denotes in a row of length [len]: negative indices
    count from the end, anything else outside the row is an [IndexError]. *)
Definition py_index (len : nat) (j : Z) : option nat :=
  if (0 <=? j) && (j <? Z.of_nat len) then Some (Z.to_nat j)
  else if (j <? 0) && (- Z.of_nat len <=? j) then Some (Z.to_nat (Z.of_nat len + j))
  else None.

(** [row[j]] *)
Definition getitem {X} (row : list X) (j : Z) : M X :=
  let* _ := emit (Slot j) in
  match py_index (length row) j with
  | Some k => match row !! k with Some x => ret x | None => raise IndexError end
  | None => raise IndexError
  end.

(** [row[j] = x] *)
Definition setitem {X} (row : list X) (j : Z) (x : X) : M (list X) :=
  let* _ := emit (Slot j) in
  match py_index (length row) j with
  | Some k => ret (<[k:=x]> row)
  | None => raise IndexError
  end.

(** The length of the rows of [np.zeros((8, n))]. *)
Definition np_zeros (n : Z) : M nat :=
  if n <? 0 then raise ValueError else ret (Z.to_nat n).

(** *** Adaptive Simpson *)

Definition simp_default_tol : num := ten_to_minus 5.

(** The local variables of [simp_adpt] that live across iterations of its
    loop: the eight rows, the stack pointer [i] and the running total.  The
    row [l] holds the depths [1 .. n_0] and nothing else; binary64 represents
    these integers, their successor and their comparison with [n_0] exactly,
    so the row is kept as integers. *)
Record locals := {
  row_e : list num;
  row_a0 : list num;
  row_h : list num;
  row_fa : list num;
  row_fc : list num;
  row_fb : list num;
  row_s : list num;
  row_l : list Z;
  ptr_i : Z;
  approx : num
}.

(** [i = j], [i -= 1], [i += 1] *)
Definition assign_i (j : Z) : M Z :=
  let* _ := emit (Ptr j) in
  ret j.

(** How an iteration of the loop ends: at the bottom of the body, or at the
    [return] inside it. *)
Inductive flow :=
| Continue (st : locals)
| Return (v : num).

Definition loop_body (n_0 : Z) (st : locals) : M flow :=
  let e := row_e st in
  let a0 := row_a0 st in
  let h := row_h st in
  let fa := row_fa st in
  let fc := row_fc st in
  let fb := row_fb st in
  let s := row_s st in
  let l := row_l st in
  let i := ptr_i st in
  let* x := getitem a0 i in
  let* y := getitem h i in
  let* fd := call (x +. y /. #2) in
  let* x := getitem a0 i in
  let* y := getitem h i in
  let* fe := call (x +. #3 *. y /. #2) in
  let* hi := getitem h i in
  let* fai := getitem fa i in
  let* fci := getitem fc i in
  let s1 := hi *. (fai +. #4 *. fd +. fci) /. #6 in
  let* hi := getitem h i in
  let* fci := getitem fc i in
  let* fbi := getitem fb i in
  let s2 := hi *. (fci +. #4 *. fe +. fbi) /. #6 in
  let* v1 := getitem a0 i in
  let* v2 := getitem fa i in
  let* v3 := getitem fc i in
  let* v4 := getitem fb i in
  let* v5 := getitem h i in
  let* v6 := getitem e i in
  let* v7 := getitem s i in
  let* v8 := getitem l i in
  let* i := assign_i (i - 1) in
  let* ok := test v8 (nabs (s1 +. s2 -. v7)) v6 in
  if ok then
    ret (Continue {| row_e := e; row_a0 := a0; row_h := h; row_fa := fa;
                     row_fc := fc; row_fb := fb; row_s := s; row_l := l;
                     ptr_i := i; approx := approx st +. (s1 +. s2) |})
  else if v8 >=? n_0 then
    let* _ := print "Level exceeded" in
    ret (Return (approx st))
  else
    let* i := assign_i (i + 1) in
    let* a0 := setitem a0 i (v1 +. v5) in
    let* fa := setitem fa i v3 in
    let* fc := setitem fc i fe in
    let* fb := setitem fb i v4 in
    let* h := setitem h i (v5 /. #2) in
    let* e := setitem e i (v6 /. #2) in
    let* s := setitem s i s2 in
    let* l := setitem l i (v8 + 1) in
    let* i := assign_i (i + 1) in
    let* a0 := setitem a0 i v1 in
    let* fa := setitem fa i v2 in
    let* fc := setitem fc i fd in
    let* fb := setitem fb i v3 in
    let* x := getitem h (i - 1) in
    let* h := setitem h i x in
    let* x := getitem e (i - 1) in
    let* e := setitem e i x in
    let* s := setitem s i s1 in
    let* x := getitem l (i - 1) in
    let* l := setitem l i x in
    ret (Continue {| row_e := e; row_a0 := a0; row_h := h; row_fa := fa;
                     row_fc := fc; row_fb := fb; row_s := s; row_l := l;
                     ptr_i := i; approx := approx st |}).

(** [while i > -1: ...] and the [return approx] after it. *)
Fixpoint while_loop (fuel : nat) (n_0 : Z) (st : locals) : M num :=
  if ptr_i st >? -1 then
    match fuel with
    | O => timeout
    | S fuel' =>
        let* _ := emit Iter in
        let* r := loop_body n_0 st in
        match r with
        | Continue st' => while_loop fuel' n_0 st'
        | Return v => ret v
        end
    end
  else ret (approx st).

(** Lines 183 to 193 of the source: the locals as the loop first sees them. *)
Definition simp_adpt_init (a b tol : num) (n_0 : Z) : M locals :=
  let approx := #0 in
  let* i := assign_i 0 in
  let* len := np_zeros n_0 in
  let e := replicate len #0 in
  let a0 := replicate len #0 in
  let h := replicate len #0 in
  let fa := replicate len #0 in
  let fc := replicate len #0 in
  let fb := replicate len #0 in
  let s := replicate len #0 in
  let l := replicate len 0 in
  let* e := setitem e i (#10 *. tol) in
  let* a0 := setitem a0 i a in
  let* h := setitem h i ((b -. a) /. #2) in
  let* x := call a in
  let* fa := setitem fa i x in
  let* hi := getitem h i in
  let* x := call (a +. hi) in
  let* fc := setitem fc i x in
  let* x := call b in
  let* fb := setitem fb i x in
  let* hi := getitem h i in
  let* fai := getitem fa i in
  let* fci := getitem fc i in
  let* fbi := getitem fb i in
  let* s := setitem s i (hi *. (fai +. #4 *. fci +. fbi) /. #3) in
  let* l := setitem l i 1 in
  ret {| row_e := e; row_a0 := a0; row_h := h; row_fa := fa; row_fc := fc;
         row_fb := fb; row_s := s; row_l := l; ptr_i := i; approx := approx |}.

Definition simp_adpt_fuel (fuel : nat) (a b tol : num) (n_0 : Z) : M num :=
  let* st := simp_adpt_init a b tol n_0 in
  while_loop fuel n_0 st.

(** The loop runs fewer than [2 ^ n_0] times. *)
Definition simp_adpt (a b tol : num) (n_0 : Z) : M num :=
  simp_adpt_fuel (2 ^ Z.to_nat n_0) a b tol n_0.

End Methods.

(** ** Reading a run *)

Section Runs.
Context {A : Arith}.

Definition outcome {X} (p : res X * NumMethods * list event) : res X := p.1.1.
Definition instance_after {X} (p : res X * NumMethods * list event) : NumMethods := p.1.2.
Definition trace {X} (p : res X * NumMethods * list event) : list event := p.2.

Definition is_call (ev : event) : bool :=
  match ev with Call _ => true | _ => false end.
Definition is_iter (ev : event) : bool :=
  match ev with Iter => true | _ => false end.
Definition is_test (ev : event) : bool :=
  match ev with Test _ _ _ _ => true | _ => false end.

Fixpoint count (p : event -> bool) (t : list event) : nat :=
  match t with
  | [] => 0
  | ev :: t' => ((if p ev then 1 else 0) + count p t')%nat
  end.

(** The number of evaluations of the target function in a trace, and the
    number of iterations of the loop of [simp_adpt]. *)
Definition calls : list event -> nat := count is_call.
Definition iters : list event -> nat := count is_iter.

(** A row access inside a row of length [n_0], a stack pointer that is
    either an index of such a row or [-1]. *)
Definition in_bounds (n_0 : Z) (ev : event) : Prop :=
  match ev with
  | Slot j => 0 <= j <= n_0 - 1
  | Ptr j => -1 <= j <= n_0 - 1
  | _ => True
  end.

Lemma count_app p t1 t2 : count p (t1 ++ t2) = (count p t1 + count p t2)%nat.
Proof. induction t1 as [|ev t1 IH]; simpl; [reflexivity | rewrite IH; lia]. Qed.

Lemma calls_app t1 t2 : calls (t1 ++ t2) = (calls t1 + calls t2)%nat.
Proof. apply count_app. Qed.

Lemma iters_app t1 t2 : iters (t1 ++ t2) = (iters t1 + iters t2)%nat.
Proof. apply count_app. Qed.

Lemma bind_run {X Y} (m : M X) (k : X -> M Y) self x self1 t1 r self2 t2 :
  m self = (Ok x, self1, t1) ->
  k x self1 = (r, self2, t2) ->
  bind m k self = (r, self2, t1 ++ t2).
Proof. unfold bind. intros -> ->. reflexivity. Qed.

Lemma bind_raise {X Y} (m : M X) (k : X -> M Y) self e self1 t1 :
  m self = (Raise e, self1, t1) -> bind m k self = (Raise e, self1, t1).
Proof. unfold bind. intros ->. reflexivity. Qed.

Lemma py_index_inside len j :
  0 <= j < Z.of_nat len -> py_index len j = Some (Z.to_nat j).
Proof.
  intros H. unfold py_index.
  destruct (Z.leb_spec 0 j), (Z.ltb_spec j (Z.of_nat len)); simpl; auto; lia.
Qed.

Lemma getitem_run {X} (row : list X) j x self :
  0 <= j -> row !! Z.to_nat j = Some x ->
  getitem row j self = (Ok x, self, [Slot j]).
Proof.
  intros Hj Hx. unfold getitem, bind, emit.
  rewrite py_index_inside, Hx; [reflexivity|].
  apply lookup_lt_Some in Hx. lia.
Qed.

Lemma setitem_run {X} (row : list X) j x self :
  0 <= j < Z.of_nat (length row) ->
  setitem row j x self = (Ok (<[Z.to_nat j := x]> row), self, [Slot j]).
Proof.
  intros Hj. unfold setitem, bind, emit. rewrite py_index_inside by lia. reflexivity.
Qed.

(** One statement of a method body at a time. *)
Lemma step_getitem {X Y} (row : list X) j x (k : X -> M Y) self r self' t :
  0 <= j -> row !! Z.to_nat j = Some x ->
  k x self = (r, self', t) ->
  bind (getitem row j) k self = (r, self', Slot j :: t).
Proof. intros Hj Hx Hk. apply (bind_run _ _ _ _ _ _ _ _ _ (getitem_run _ _ _ _ Hj Hx) Hk). Qed.

Lemma step_setitem {X Y} (row : list X) j x (k : list X -> M Y) self r self' t :
  0 <= j < Z.of_nat (length row) ->
  k (<[Z.to_nat j := x]> row) self = (r, self', t) ->
  bind (setitem row j x) k self = (r, self', Slot j :: t).
Proof. intros Hj Hk. apply (bind_run _ _ _ _ _ _ _ _ _ (setitem_run _ _ x _ Hj) Hk). Qed.

Lemma step_call {Y} x (k : num -> M Y) self r self' t :
  k (func self x) self = (r, self', t) ->
  bind (call x) k self = (r, self', Call x :: t).
Proof. intros Hk. apply (bind_run (call x) k self _ self [Call x] _ _ _ eq_refl Hk). Qed.

Lemma step_assign_i {Y} j (k : Z -> M Y) self r self' t :
  k j self = (r, self', t) ->
  bind (assign_i j) k self = (r, self', Ptr j :: t).
Proof. intros Hk. apply (bind_run (assign_i j) k self _ self [Ptr j] _ _ _ eq_refl Hk). Qed.

Lemma step_test {Y} d err tol (k : bool -> M Y) self r self' t :
  k (err <.? tol) self = (r, self', t) ->
  bind (test d err tol) k self = (r, self', Test d err tol (err <.? tol) :: t).
Proof.
  intros Hk.
  apply (bind_run (test d err tol) k self _ self [Test d err tol (err <.? tol)] _ _ _ eq_refl Hk).
Qed.

Lemma step_print {Y} s (k : unit -> M Y) self r self' t :
  k tt self = (r, self', t) ->
  bind (print s) k self = (r, self', Print s :: t).
Proof. intros Hk. apply (bind_run (print s) k self _ self [Print s] _ _ _ eq_refl Hk). Qed.

End Runs.

(** ** The loop of [simp_adpt], one iteration *)

Section Frames.
Context {A : Arith}.

(** Slot [k] of the eight rows, read together: the frame the source keeps
    there. *)
Record frame := {
  fr_e : num;
  fr_a0 : num;
  fr_h : num;
  fr_fa : num;
  fr_fc : num;
  fr_fb : num;
  fr_s : num;
  fr_l : Z
}.

Definition frame_at (st : locals) (k : nat) : option frame :=
  e ← row_e st !! k;
  a0 ← row_a0 st !! k;
  h ← row_h st !! k;
  fa ← row_fa st !! k;
  fc ← row_fc st !! k;
  fb ← row_fb st !! k;
  s ← row_s st !! k;
  l ← row_l st !! k;
  Some {| fr_e := e; fr_a0 := a0; fr_h := h; fr_fa := fa; fr_fc := fc;
          fr_fb := fb; fr_s := s; fr_l := l |}.

(** What an iteration computes from the frame it pops: the two samples
    [fd] and [fe], the two half estimates [s1] and [s2], and the quantity
    its test compares with the frame's tolerance. *)
Definition fd_of (self : NumMethods) (fr : frame) : num :=
  func self (fr_a0 fr +. fr_h fr /. #2).
Definition fe_of (self : NumMethods) (fr : frame) : num :=
  func self (fr_a0 fr +. #3 *. fr_h fr /. #2).
Definition s1_of (self : NumMethods) (fr : frame) : num :=
  fr_h fr *. (fr_fa fr +. #4 *. fd_of self fr +. fr_fc fr) /. #6.
Definition s2_of (self : NumMethods) (fr : frame) : num :=
  fr_h fr *. (fr_fc fr +. #4 *. fe_of self fr +. fr_fb fr) /. #6.
Definition err_of (self : NumMethods) (fr : frame) : num :=
  nabs (s1_of self fr +. s2_of self fr -. fr_s fr).
Definition accepts (self : NumMethods) (fr : frame) : bool :=
  err_of self fr <.? fr_e fr.

(** The events of an iteration up to and including its test. *)
Definition probe_events (self : NumMethods) (i : Z) (fr : frame) : list event :=
  [Slot i; Slot i; Call (fr_a0 fr +. fr_h fr /. #2);
   Slot i; Slot i; Call (fr_a0 fr +. #3 *. fr_h fr /. #2)]
  ++ replicate 14 (Slot i)
  ++ [Ptr (i - 1); Test (fr_l fr) (err_of self fr) (fr_e fr) (accepts self fr)].

(** The events of the [else] branch, which writes slots [i] and [i+1]. *)
Definition push_events (i : Z) : list event :=
  Ptr i :: replicate 8 (Slot i)
  ++ Ptr (i + 1) :: replicate 4 (Slot (i + 1))
  ++ [Slot i; Slot (i + 1); Slot i; Slot (i + 1); Slot (i + 1); Slot i; Slot (i + 1)].

(** The locals after an accepted frame. *)
Definition accepted (self : NumMethods) (st : locals) (fr : frame) : locals :=
  {| row_e := row_e st; row_a0 := row_a0 st; row_h := row_h st;
     row_fa := row_fa st; row_fc := row_fc st; row_fb := row_fb st;
     row_s := row_s st; row_l := row_l st;
     ptr_i := ptr_i st - 1;
     approx := approx st +. (s1_of self fr +. s2_of self fr) |}.

(** The locals after a frame was split: its right half replaces it in slot
    [k], its left half goes on top in slot [k+1]. *)
Definition pushed (self : NumMethods) (st : locals) (fr : frame) : locals :=
  let k := Z.to_nat (ptr_i st) in
  {| row_e := <[S k := fr_e fr /. #2]> (<[k := fr_e fr /. #2]> (row_e st));
     row_a0 := <[S k := fr_a0 fr]> (<[k := fr_a0 fr +. fr_h fr]> (row_a0 st));
     row_h := <[S k := fr_h fr /. #2]> (<[k := fr_h fr /. #2]> (row_h st));
     row_fa := <[S k := fr_fa fr]> (<[k := fr_fc fr]> (row_fa st));
     row_fc := <[S k := fd_of self fr]> (<[k := fe_of self fr]> (row_fc st));
     row_fb := <[S k := fr_fc fr]> (<[k := fr_fb fr]> (row_fb st));
     row_s := <[S k := s1_of self fr]> (<[k := s2_of self fr]> (row_s st));
     row_l := <[S k := fr_l fr + 1]> (<[k := fr_l fr + 1]> (row_l st));
     ptr_i := ptr_i st + 1;
     approx := approx st |}.

(** Every row has length [n]. *)
Definition rows_length (n : nat) (st : locals) : Prop :=
  length (row_e st) = n /\ length (row_a0 st) = n /\ length (row_h st) = n /\
  length (row_fa st) = n /\ length (row_fc st) = n /\ length (row_fb st) = n /\
  length (row_s st) = n /\ length (row_l st) = n.

Lemma frame_at_rows st k fr :
  frame_at st k = Some fr ->
  row_e st !! k = Some (fr_e fr) /\ row_a0 st !! k = Some (fr_a0 fr) /\
  row_h st !! k = Some (fr_h fr) /\ row_fa st !! k = Some (fr_fa fr) /\
  row_fc st !! k = Some (fr_fc fr) /\ row_fb st !! k = Some (fr_fb fr) /\
  row_s st !! k = Some (fr_s fr) /\ row_l st !! k = Some (fr_l fr).
Proof.
  unfold frame_at. intros H.
  destruct (row_e st !! k); [|discriminate].
  destruct (row_a0 st !! k); [|discriminate].
  destruct (row_h st !! k); [|discriminate].
  destruct (row_fa st !! k); [|discriminate].
  destruct (row_fc st !! k); [|discriminate].
  destruct (row_fb st !! k); [|discriminate].
  destruct (row_s st !! k); [|discriminate].
  destruct (row_l st !! k); [|discriminate].
  simpl in H. injection H as <-. simpl. repeat split; reflexivity.
Qed.

Lemma frame_at_inside n st k :
  rows_length n st -> (k < n)%nat -> exists fr, frame_at st k = Some fr.
Proof.
  intros (He & Ha0 & Hh & Hfa & Hfc & Hfb & Hs & Hl) Hk. unfold frame_at.
  destruct (lookup_lt_is_Some_2 (row_e st) k) as [? ->]; [lia|].
  destruct (lookup_lt_is_Some_2 (row_a0 st) k) as [? ->]; [lia|].
  destruct (lookup_lt_is_Some_2 (row_h st) k) as [? ->]; [lia|].
  destruct (lookup_lt_is_Some_2 (row_fa st) k) as [? ->]; [lia|].
  destruct (lookup_lt_is_Some_2 (row_fc st) k) as [? ->]; [lia|].
  destruct (lookup_lt_is_Some_2 (row_fb st) k) as [? ->]; [lia|].
  destruct (lookup_lt_is_Some_2 (row_s st) k) as [? ->]; [lia|].
  destruct (lookup_lt_is_Some_2 (row_l st) k) as [? ->]; [lia|].
  simpl. eauto.
Qed.

End Frames.

(** Runs the next statement of a method body whose indices are inside
    their rows. *)
Ltac run_step :=
  first
    [ eapply step_getitem;
      [ lia
      | first [ eassumption | apply list_lookup_insert_eq;
                rewrite ?length_insert, ?length_replicate; lia ]
      | cbv beta ]
    | eapply step_setitem;
      [ rewrite ?length_insert, ?length_replicate; lia | cbv beta ]
    | eapply step_call; cbv beta
    | eapply step_assign_i; cbv beta
    | eapply step_test; cbv beta
    | eapply step_print; cbv beta ];
  rewrite ?Z.sub_add, ?Z.add_simpl_r.

Section Body.
Context {A : Arith}.

Lemma loop_body_accept n_0 st self fr :
  0 <= ptr_i st ->
  frame_at st (Z.to_nat (ptr_i st)) = Some fr ->
  accepts self fr = true ->
  loop_body n_0 st self =
    (Ok (Continue (accepted self st fr)), self, probe_events self (ptr_i st) fr).
Proof.
  intros Hi Hfr Hacc.
  destruct (frame_at_rows _ _ _ Hfr) as (He & Ha0 & Hh & Hfa & Hfc & Hfb & Hs & Hl).
  unfold loop_body, probe_events. cbn [app replicate].
  do 22 run_step.
  unfold accepts in Hacc. rewrite Hacc.
  reflexivity.
Qed.

Lemma loop_body_exceed n_0 st self fr :
  0 <= ptr_i st ->
  frame_at st (Z.to_nat (ptr_i st)) = Some fr ->
  accepts self fr = false ->
  fr_l fr >= n_0 ->
  loop_body n_0 st self =
    (Ok (Return (approx st)), self,
     probe_events self (ptr_i st) fr ++ [Print "Level exceeded"]).
Proof.
  intros Hi Hfr Hacc Hl0.
  destruct (frame_at_rows _ _ _ Hfr) as (He & Ha0 & Hh & Hfa & Hfc & Hfb & Hs & Hl).
  unfold loop_body, probe_events. cbn [app replicate].
  do 22 run_step.
  unfold accepts in Hacc. rewrite Hacc.
  destruct (Z.geb_spec (fr_l fr) n_0); [|lia].
  run_step. reflexivity.
Qed.

Lemma loop_body_push n_0 st self fr n :
  0 <= ptr_i st ->
  rows_length n st ->
  (S (Z.to_nat (ptr_i st)) < n)%nat ->
  frame_at st (Z.to_nat (ptr_i st)) = Some fr ->
  accepts self fr = false ->
  fr_l fr < n_0 ->
  loop_body n_0 st self =
    (Ok (Continue (pushed self st fr)), self,
     probe_events self (ptr_i st) fr ++ push_events (ptr_i st)).
Proof.
  intros Hi (Le & La0 & Lh & Lfa & Lfc & Lfb & Ls & Ll) Hn Hfr Hacc Hl0.
  destruct (frame_at_rows _ _ _ Hfr) as (He & Ha0 & Hh & Hfa & Hfc & Hfb & Hs & Hl).
  unfold loop_body, probe_events, push_events. cbn [app replicate].
  do 22 run_step.
  unfold accepts in Hacc. rewrite Hacc.
  destruct (Z.geb_spec (fr_l fr) n_0); [lia|].
  do 21 run_step.
  unfold ret, pushed.
  replace (Z.to_nat (ptr_i st + 1)) with (S (Z.to_nat (ptr_i st))) by lia.
  reflexivity.
Qed.
End Body.

(** ** Setting up the loop of [simp_adpt] *)

Section Loop.
Context {A : Arith}.

(** The locals as lines 183 to 193 leave them. *)
Definition initial (self : NumMethods) (a b tol : num) (n_0 : Z) : locals :=
  let n := Z.to_nat n_0 in
  let h := (b -. a) /. #2 in
  let fa := func self a in
  let fc := func self (a +. h) in
  let fb := func self b in
  {| row_e := <[0%nat := #10 *. tol]> (replicate n #0);
     row_a0 := <[0%nat := a]> (replicate n #0);
     row_h := <[0%nat := h]> (replicate n #0);
     row_fa := <[0%nat := fa]> (replicate n #0);
     row_fc := <[0%nat := fc]> (replicate n #0);
     row_fb := <[0%nat := fb]> (replicate n #0);
     row_s := <[0%nat := h *. (fa +. #4 *. fc +. fb) /. #3]> (replicate n #0);
     row_l := <[0%nat := 1]> (replicate n 0);
     ptr_i := 0;
     approx := #0 |}.

Definition init_events (a b : num) : list event :=
  [Ptr 0; Slot 0; Slot 0; Slot 0; Call a; Slot 0; Slot 0;
   Call (a +. (b -. a) /. #2); Slot 0; Call b]
  ++ replicate 7 (Slot 0).

(** The frame the loop pops first. *)
Definition initial_frame (self : NumMethods) (a b tol : num) : frame :=
  let h := (b -. a) /. #2 in
  let fa := func self a in
  let fc := func self (a +. h) in
  let fb := func self b in
  {| fr_e := #10 *. tol; fr_a0 := a; fr_h := h; fr_fa := fa; fr_fc := fc;
     fr_fb := fb; fr_s := h *. (fa +. #4 *. fc +. fb) /. #3; fr_l := 1 |}.

Lemma step_np_zeros {Y} n (k : nat -> M Y) self r self' t :
  0 <= n ->
  k (Z.to_nat n) self = (r, self', t) ->
  bind (np_zeros n) k self = (r, self', t).
Proof.
  intros Hn Hk. unfold bind, np_zeros.
  destruct (Z.ltb_spec n 0); [lia|]. unfold ret. rewrite Hk. reflexivity.
Qed.

Lemma simp_adpt_init_run self a b tol n_0 :
  1 <= n_0 ->
  simp_adpt_init a b tol n_0 self =
    (Ok (initial self a b tol n_0), self, init_events a b).
Proof.
  intros Hn. unfold simp_adpt_init, init_events. cbn [app replicate].
  run_step. apply step_np_zeros; [lia|].
  do 16 run_step.
  reflexivity.
Qed.

(** ** The loop of [simp_adpt], all iterations *)

(** What the loop keeps true of its locals: the rows have the length they
    were allocated with, the stack pointer is an index of them or [-1], and
    the frame in slot [k] of the stack has depth at least [k + 1]. *)
Definition wf (n_0 : Z) (st : locals) : Prop :=
  rows_length (Z.to_nat n_0) st /\
  -1 <= ptr_i st < n_0 /\
  forall k d, Z.of_nat k <= ptr_i st -> row_l st !! k = Some d -> Z.of_nat k + 1 <= d.

(** The iterations a frame of depth [d] can still cause: itself, and those
    of the two frames of depth [d + 1] it may be split into while [d < n_0]. *)
Definition weight (n_0 d : Z) : nat := (2 ^ S (Z.to_nat (n_0 - d)) - 1)%nat.

Definition potential (n_0 : Z) (st : locals) : nat :=
  sum_list_with (weight n_0) (take (Z.to_nat (ptr_i st + 1)) (row_l st)).

Lemma weight_pos n_0 d : (1 <= weight n_0 d)%nat.
Proof.
  unfold weight. rewrite Nat.pow_succ_r'.
  assert (1 <= 2 ^ Z.to_nat (n_0 - d))%nat by (apply Nat.neq_0_lt_0, Nat.pow_nonzero; lia).
  lia.
Qed.

Lemma weight_split n_0 d :
  d < n_0 -> weight n_0 d = (2 * weight n_0 (d + 1) + 1)%nat.
Proof.
  intros Hd. unfold weight.
  replace (Z.to_nat (n_0 - d)) with (S (Z.to_nat (n_0 - (d + 1)))) by lia.
  rewrite (Nat.pow_succ_r' 2 (S _)).
  assert (1 <= 2 ^ S (Z.to_nat (n_0 - (d + 1))))%nat by (apply Nat.neq_0_lt_0, Nat.pow_nonzero; lia).
  lia.
Qed.

Lemma potential_top n_0 st d :
  0 <= ptr_i st ->
  row_l st !! Z.to_nat (ptr_i st) = Some d ->
  potential n_0 st =
    (sum_list_with (weight n_0) (take (Z.to_nat (ptr_i st)) (row_l st)) + weight n_0 d)%nat.
Proof.
  intros Hi Hd. unfold potential.
  replace (Z.to_nat (ptr_i st + 1)) with (S (Z.to_nat (ptr_i st))) by lia.
  rewrite (take_S_r _ _ _ Hd), sum_list_with_app. simpl. lia.
Qed.

Lemma wf_initial self a b tol n_0 :
  1 <= n_0 -> wf n_0 (initial self a b tol n_0).
Proof.
  intros Hn. unfold wf, rows_length, initial. cbn.
  rewrite !length_insert, !length_replicate.
  split; [tauto|]. split; [lia|].
  intros k d Hk Hd. assert (k = 0%nat) as -> by lia.
  rewrite list_lookup_insert_eq in Hd by (rewrite length_replicate; lia).
  injection Hd as <-. lia.
Qed.

Lemma potential_initial self a b tol n_0 :
  1 <= n_0 -> (potential n_0 (initial self a b tol n_0) < 2 ^ Z.to_nat n_0)%nat.
Proof.
  intros Hn.
  rewrite (potential_top _ _ 1); cbn [ptr_i initial row_l]; [|lia|].
  - simpl. unfold weight. replace (S (Z.to_nat (n_0 - 1))) with (Z.to_nat n_0) by lia.
    assert (1 <= 2 ^ Z.to_nat n_0)%nat by (apply Nat.neq_0_lt_0, Nat.pow_nonzero; lia).
    lia.
  - apply list_lookup_insert_eq. rewrite length_replicate. lia.
Qed.

Lemma wf_accepted self n_0 st fr :
  wf n_0 st -> 0 <= ptr_i st ->
  frame_at st (Z.to_nat (ptr_i st)) = Some fr ->
  wf n_0 (accepted self st fr) /\
  (potential n_0 (accepted self st fr) < potential n_0 st)%nat.
Proof.
  intros (Hlen & Hi & Hd) Hi0 Hfr.
  destruct (frame_at_rows _ _ _ Hfr) as (_ & _ & _ & _ & _ & _ & _ & Hl).
  split.
  - split; [exact Hlen|]. split; [cbn; lia|].
    cbn. intros k d Hk. apply Hd. lia.
  - rewrite (potential_top _ st _ Hi0 Hl). unfold potential. cbn [accepted ptr_i row_l].
    rewrite Z.sub_add. pose proof (weight_pos n_0 (fr_l fr)). lia.
Qed.

Lemma wf_pushed self n_0 st fr :
  wf n_0 st -> 0 <= ptr_i st ->
  frame_at st (Z.to_nat (ptr_i st)) = Some fr ->
  fr_l fr < n_0 ->
  (S (Z.to_nat (ptr_i st)) < Z.to_nat n_0)%nat /\
  wf n_0 (pushed self st fr) /\
  (potential n_0 (pushed self st fr) < potential n_0 st)%nat.
Proof.
  intros (Hlen & Hi & Hd) Hi0 Hfr Hl0.
  destruct (frame_at_rows _ _ _ Hfr) as (_ & _ & _ & _ & _ & _ & _ & Hl).
  pose proof (Hd (Z.to_nat (ptr_i st)) (fr_l fr) ltac:(lia) Hl) as Hdepth.
  rewrite Z2Nat.id in Hdepth by lia.
  assert (Hk : (S (Z.to_nat (ptr_i st)) < Z.to_nat n_0)%nat) by lia.
  split; [exact Hk|].
  destruct Hlen as (Le & La0 & Lh & Lfa & Lfc & Lfb & Ls & Ll).
  split.
  - split.
    { unfold rows_length, pushed. cbn. rewrite !length_insert. tauto. }
    split; [cbn; lia|].
    cbn. intros k d Hk' Hlk.
    destruct (decide (k = S (Z.to_nat (ptr_i st)))) as [->|Hne1].
    { rewrite list_lookup_insert_eq in Hlk by (rewrite length_insert; lia).
      injection Hlk as <-. lia. }
    rewrite list_lookup_insert_ne in Hlk by lia.
    destruct (decide (k = Z.to_nat (ptr_i st))) as [->|Hne2].
    { rewrite list_lookup_insert_eq in Hlk by lia. injection Hlk as <-. lia. }
    rewrite list_lookup_insert_ne in Hlk by lia.
    apply (Hd k d); [lia | exact Hlk].
  - rewrite (potential_top _ st _ Hi0 Hl). unfold potential, pushed. cbn [ptr_i row_l].
    replace (Z.to_nat (ptr_i st + 1 + 1)) with (S (S (Z.to_nat (ptr_i st)))) by lia.
    rewrite (take_S_r _ _ (fr_l fr + 1))
      by (apply list_lookup_insert_eq; rewrite length_insert; lia).
    rewrite take_insert_ge by lia.
    rewrite (take_S_r _ _ (fr_l fr + 1)) by (apply list_lookup_insert_eq; lia).
    rewrite take_insert_ge by lia.
    rewrite !sum_list_with_app. cbn [sum_list_with].
    rewrite (weight_split n_0 (fr_l fr)) by lia. lia.
Qed.

Lemma calls_probe self i fr : calls (probe_events self i fr) = 2%nat.
Proof. reflexivity. Qed.

Lemma iters_probe self i fr : iters (probe_events self i fr) = 0%nat.
Proof. reflexivity. Qed.

Lemma calls_push i : calls (push_events i) = 0%nat.
Proof. reflexivity. Qed.

Lemma iters_push i : iters (push_events i) = 0%nat.
Proof. reflexivity. Qed.

Lemma in_bounds_probe self n_0 i fr :
  0 <= i <= n_0 - 1 -> Forall (in_bounds n_0) (probe_events self i fr).
Proof. intros Hi. unfold probe_events. cbn [app replicate]. repeat constructor; simpl; lia. Qed.

Lemma in_bounds_push n_0 i :
  0 <= i -> i + 1 <= n_0 - 1 -> Forall (in_bounds n_0) (push_events i).
Proof. intros Hi Hj. unfold push_events. cbn [app replicate]. repeat constructor; simpl; lia. Qed.

Lemma step_emit {Y} ev (k : unit -> M Y) self r self' t :
  k tt self = (r, self', t) ->
  bind (emit ev) k self = (r, self', ev :: t).
Proof. intros Hk. apply (bind_run (emit ev) k self _ self [ev] _ _ _ eq_refl Hk). Qed.

(** Every run of the loop from well-formed locals: it raises nothing, it
    ends when the fuel covers the potential, each of its iterations
    evaluates the target function twice, and its indices stay inside the
    rows. *)
Lemma while_loop_run self n_0 fuel :
  forall st, wf n_0 st ->
  exists r t, while_loop fuel n_0 st self = (r, self, t) /\
    (forall e, r <> Raise e) /\
    ((potential n_0 st <= fuel)%nat -> exists v, r = Ok v) /\
    calls t = (2 * iters t)%nat /\
    (iters t <= potential n_0 st)%nat /\
    Forall (in_bounds n_0) t.
Proof.
  induction fuel as [|fuel IH]; intros st Hwf.
  - destruct (Z.gtb_spec (ptr_i st) (-1)) as [Hi|Hi].
    + exists Timeout, []. simpl. destruct (Z.gtb_spec (ptr_i st) (-1)); [|lia].
      split; [reflexivity|]. split; [discriminate|].
      split; [|split; [reflexivity|split; [apply Nat.le_0_l|constructor]]].
      intros Hp. exfalso.
      destruct Hwf as (Hlen & Hb & _).
      destruct (frame_at_inside _ st (Z.to_nat (ptr_i st)) Hlen) as [fr Hfr]; [lia|].
      destruct (frame_at_rows _ _ _ Hfr) as (_ & _ & _ & _ & _ & _ & _ & Hl).
      rewrite (potential_top _ st _ ltac:(lia) Hl) in Hp.
      pose proof (weight_pos n_0 (fr_l fr)). lia.
    + exists (Ok (approx st)), []. simpl. destruct (Z.gtb_spec (ptr_i st) (-1)); [lia|].
      split; [reflexivity|]. split; [discriminate|]. split; [eauto|].
      split; [reflexivity|]. split; [apply Nat.le_0_l|constructor].
  - destruct (Z.gtb_spec (ptr_i st) (-1)) as [Hi|Hi].
    2:{ exists (Ok (approx st)), []. simpl. destruct (Z.gtb_spec (ptr_i st) (-1)); [lia|].
        split; [reflexivity|]. split; [discriminate|]. split; [eauto|].
        split; [reflexivity|]. split; [apply Nat.le_0_l|constructor]. }
    pose proof Hwf as (Hlen & Hb & Hd).
    destruct (frame_at_inside _ st (Z.to_nat (ptr_i st)) Hlen) as [fr Hfr]; [lia|].
    destruct (frame_at_rows _ _ _ Hfr) as (_ & _ & _ & _ & _ & _ & _ & Hl).
    assert (Hi0 : 0 <= ptr_i st) by lia.
    pose proof (in_bounds_probe self n_0 (ptr_i st) fr ltac:(lia)) as Hprobe.
    cbn [while_loop]. destruct (Z.gtb_spec (ptr_i st) (-1)); [|lia].
    destruct (accepts self fr) eqn:Hacc.
    + destruct (wf_accepted self n_0 st fr Hwf Hi0 Hfr) as (Hwf' & Hpot).
      destruct (IH _ Hwf') as (r & t & Hrun & Hraise & Hend & Hcalls & Hiters & Hin).
      exists r, ([Iter] ++ probe_events self (ptr_i st) fr ++ t). split.
      { apply step_emit.
        apply (bind_run _ _ _ _ _ _ _ _ _ (loop_body_accept n_0 st self fr Hi0 Hfr Hacc)).
        exact Hrun. }
      split; [exact Hraise|]. split; [intros; apply Hend; lia|].
      rewrite !calls_app, !iters_app, calls_probe, iters_probe.
      change (calls [Iter]) with 0%nat. change (iters [Iter]) with 1%nat.
      split; [lia|]. split; [lia|].
      rewrite !Forall_app. repeat split; try assumption.
      constructor; [exact I|constructor].
    + destruct (Z_lt_ge_dec (fr_l fr) n_0) as [Hlt|Hge].
      * destruct (wf_pushed self n_0 st fr Hwf Hi0 Hfr Hlt) as (Hk & Hwf' & Hpot).
        destruct (IH _ Hwf') as (r & t & Hrun & Hraise & Hend & Hcalls & Hiters & Hin).
        exists r, ([Iter] ++ (probe_events self (ptr_i st) fr ++ push_events (ptr_i st)) ++ t).
        split.
        { apply step_emit.
          apply (bind_run _ _ _ _ _ _ _ _ _
                   (loop_body_push n_0 st self fr _ Hi0 Hlen Hk Hfr Hacc Hlt)).
          exact Hrun. }
        split; [exact Hraise|]. split; [intros; apply Hend; lia|].
        rewrite !calls_app, !iters_app, calls_probe, iters_probe, calls_push, iters_push.
        change (calls [Iter]) with 0%nat. change (iters [Iter]) with 1%nat.
        split; [lia|]. split; [lia|].
        rewrite !Forall_app. repeat split; try assumption.
        { constructor; [exact I|constructor]. }
        apply in_bounds_push; lia.
      * exists (Ok (approx st)),
          ([Iter] ++ (probe_events self (ptr_i st) fr ++ [Print "Level exceeded"]) ++ []).
        split.
        { apply step_emit.
          apply (bind_run _ _ _ _ _ _ _ _ _
                   (loop_body_exceed n_0 st self fr Hi0 Hfr Hacc Hge)).
          reflexivity. }
        split; [discriminate|]. split; [eauto|].
        rewrite (potential_top _ st _ Hi0 Hl). pose proof (weight_pos n_0 (fr_l fr)).
        rewrite !calls_app, !iters_app, calls_probe, iters_probe.
        change (calls [Iter]) with 0%nat. change (iters [Iter]) with 1%nat.
        change (calls [Print "Level exceeded"]) with 0%nat.
        change (iters [Print "Level exceeded"]) with 0%nat.
        change (calls []) with 0%nat. change (iters []) with 0%nat.
        split; [lia|]. split; [lia|].
        rewrite !Forall_app. repeat split; try assumption.
        { constructor; [exact I|constructor]. }
        { constructor; [exact I|constructor]. }
        constructor.
Qed.

End Loop.

(** ** Whole runs of [simp_adpt] *)

Section SimpAdpt.
Context {A : Arith}.

(** The first acceptance test of a trace. *)
Definition first_test (t : list event) : option event := List.find is_test t.

Lemma first_test_app t1 t2 :
  first_test (t1 ++ t2) =
    match first_test t1 with Some ev => Some ev | None => first_test t2 end.
Proof.
  unfold first_test. induction t1 as [|ev t1 IH]; simpl; [reflexivity|].
  destruct (is_test ev); [reflexivity | exact IH].
Qed.

Lemma in_bounds_init n_0 a b :
  1 <= n_0 -> Forall (in_bounds n_0) (init_events a b).
Proof. intros Hn. unfold init_events. cbn [app replicate]. repeat constructor; simpl; lia. Qed.

(** A call with [n_0 >= 1]: the set-up, then the loop from [initial]. *)
Lemma simp_adpt_fuel_run self fuel a b tol n_0 :
  1 <= n_0 ->
  exists r t,
    simp_adpt_fuel fuel a b tol n_0 self = (r, self, init_events a b ++ t) /\
    while_loop fuel n_0 (initial self a b tol n_0) self = (r, self, t) /\
    (forall e, r <> Raise e) /\
    ((2 ^ Z.to_nat n_0 <= fuel)%nat -> exists v, r = Ok v) /\
    calls t = (2 * iters t)%nat /\
    (iters t < 2 ^ Z.to_nat n_0)%nat /\
    Forall (in_bounds n_0) t.
Proof.
  intros Hn.
  destruct (while_loop_run self n_0 fuel _ (wf_initial self a b tol n_0 Hn))
    as (r & t & Hrun & Hraise & Hend & Hcalls & Hiters & Hin).
  pose proof (potential_initial self a b tol n_0 Hn) as Hpot.
  exists r, t. split.
  { unfold simp_adpt_fuel.
    exact (bind_run _ _ _ _ _ _ _ _ _ (simp_adpt_init_run self a b tol n_0 Hn) Hrun). }
  split; [exact Hrun|]. split; [exact Hraise|].
  split; [intros Hf; apply Hend; lia|].
  split; [exact Hcalls|]. split; [lia | exact Hin].
Qed.

(** A call with [n_0 <= 0] raises while it sets up its rows, before it
    evaluates anything. *)
Lemma simp_adpt_fuel_no_rows self fuel a b tol n_0 :
  n_0 <= 0 ->
  exists e t, simp_adpt_fuel fuel a b tol n_0 self = (Raise e, self, t) /\ calls t = 0%nat.
Proof.
  intros Hn. destruct n_0 as [|p|p]; try lia.
  - exists IndexError, [Ptr 0; Slot 0]. split; reflexivity.
  - exists ValueError, [Ptr 0]. split; reflexivity.
Qed.

Lemma frame_at_initial self a b tol n_0 :
  1 <= n_0 ->
  frame_at (initial self a b tol n_0) 0 = Some (initial_frame self a b tol).
Proof.
  intros Hn. unfold frame_at, initial. cbn [row_e row_a0 row_h row_fa row_fc row_fb row_s row_l].
  rewrite !list_lookup_insert_eq by (rewrite length_replicate; lia).
  reflexivity.
Qed.

(** The first iteration of the loop from locals whose stack is not empty. *)
Lemma while_loop_head self n_0 fuel st fr :
  wf n_0 st -> 0 <= ptr_i st ->
  frame_at st (Z.to_nat (ptr_i st)) = Some fr ->
  exists r t,
    while_loop (S fuel) n_0 st self =
      (r, self, Iter :: probe_events self (ptr_i st) fr ++ t).
Proof.
  intros Hwf Hi0 Hfr. pose proof Hwf as (Hlen & Hb & Hd).
  cbn [while_loop]. destruct (Z.gtb_spec (ptr_i st) (-1)); [|lia].
  destruct (accepts self fr) eqn:Hacc.
  - destruct (wf_accepted self n_0 st fr Hwf Hi0 Hfr) as (Hwf' & _).
    destruct (while_loop_run self n_0 fuel _ Hwf') as (r & t & Hrun & _).
    exists r, t. apply step_emit.
    exact (bind_run _ _ _ _ _ _ _ _ _ (loop_body_accept n_0 st self fr Hi0 Hfr Hacc) Hrun).
  - destruct (Z_lt_ge_dec (fr_l fr) n_0) as [Hlt|Hge].
    + destruct (wf_pushed self n_0 st fr Hwf Hi0 Hfr Hlt) as (Hk & Hwf' & _).
      destruct (while_loop_run self n_0 fuel _ Hwf') as (r & t & Hrun & _).
      exists r, (push_events (ptr_i st) ++ t). apply step_emit. rewrite app_assoc.
      exact (bind_run _ _ _ _ _ _ _ _ _
               (loop_body_push n_0 st self fr _ Hi0 Hlen Hk Hfr Hacc Hlt) Hrun).
    + exists (Ok (approx st)), [Print "Level exceeded"]. apply step_emit.
      rewrite <- (app_nil_r (_ ++ [Print _])).
      exact (bind_run _ _ _ _ _ _ _ _ _
               (loop_body_exceed n_0 st self fr Hi0 Hfr Hacc Hge) eq_refl).
Qed.

(** C1, as amended: for [n_0 >= 1] the frame that [simp_adpt] creates for the
    whole interval [[a, b]] carries the tolerance [10 * tol], not [tol], and
    the first acceptance test of the run, made at depth 1, compares
    [|s1 + s2 - s|] with [10 * tol]. *)
Theorem simp_adpt_first_tolerance self fuel a b tol n_0 :
  1 <= n_0 ->
  let fr := initial_frame self a b tol in
  simp_adpt_init a b tol n_0 self =
    (Ok (initial self a b tol n_0), self, init_events a b) /\
  frame_at (initial self a b tol n_0) 0 = Some fr /\
  fr_e fr = #10 *. tol /\
  first_test (trace (simp_adpt_fuel (S fuel) a b tol n_0 self)) =
    Some (Test 1 (err_of self fr) (#10 *. tol) (err_of self fr <.? #10 *. tol)).
Proof.
  intros Hn fr.
  split; [apply simp_adpt_init_run; exact Hn|].
  split; [apply frame_at_initial; exact Hn|].
  split; [reflexivity|].
  destruct (while_loop_head self n_0 fuel _ fr (wf_initial self a b tol n_0 Hn))
    as (r & t & Hrun); [simpl; lia | apply frame_at_initial; exact Hn |].
  assert (Hfull : simp_adpt_fuel (S fuel) a b tol n_0 self =
            (r, self, init_events a b ++
               Iter :: probe_events self (ptr_i (initial self a b tol n_0)) fr ++ t))
    by exact (bind_run _ _ _ _ _ _ _ _ _ (simp_adpt_init_run self a b tol n_0 Hn) Hrun).
  rewrite Hfull. unfold trace. cbn [snd]. rewrite first_test_app.
  change (first_test (init_events a b)) with (@None event).
  change (Iter :: probe_events self (ptr_i (initial self a b tol n_0)) fr ++ t)
    with ([Iter] ++ probe_events self 0 fr ++ t).
  rewrite !first_test_app. reflexivity.
Qed.

(** C5: when the frame on top of the stack fails its test and its depth is
    [n_0] or more, the iteration that pops it prints the diagnostic and the
    call returns the total accumulated so far; it is the last iteration,
    whatever the stack pointer says is left on the stack. *)
Theorem simp_adpt_level_exceeded self n_0 st fr fuel :
  0 <= ptr_i st ->
  frame_at st (Z.to_nat (ptr_i st)) = Some fr ->
  accepts self fr = false ->
  fr_l fr >= n_0 ->
  while_loop (S fuel) n_0 st self =
    (Ok (approx st), self,
     Iter :: probe_events self (ptr_i st) fr ++ [Print "Level exceeded"]).
Proof.
  intros Hi0 Hfr Hacc Hge.
  cbn [while_loop]. destruct (Z.gtb_spec (ptr_i st) (-1)); [|lia].
  apply step_emit. rewrite <- (app_nil_r (_ ++ [Print _])).
  exact (bind_run _ _ _ _ _ _ _ _ _
           (loop_body_exceed n_0 st self fr Hi0 Hfr Hacc Hge) eq_refl).
Qed.

(** C6, as amended: for [n_0 >= 1], in every run of [simp_adpt] the target
    function has been evaluated [3 + 2 * k] times when the loop has started
    [k] iterations: the events of the run are those of the set-up, with
    three evaluations and no iteration, followed by those of the loop, with
    two evaluations for each iteration.  With [n_0 <= 0] the set-up raises
    before its first evaluation. *)
Theorem simp_adpt_evaluation_count self fuel a b tol n_0 :
  1 <= n_0 ->
  let run := simp_adpt_fuel fuel a b tol n_0 self in
  calls (trace run) = (3 + 2 * iters (trace run))%nat /\
  exists t,
    trace run = init_events a b ++ t /\
    calls (init_events a b) = 3%nat /\ iters (init_events a b) = 0%nat /\
    calls t = (2 * iters t)%nat.
Proof.
  intros Hn run. subst run.
  destruct (simp_adpt_fuel_run self fuel a b tol n_0 Hn)
    as (r & t & Hrun & _ & _ & _ & Hcalls & _).
  rewrite Hrun. unfold trace. cbn [snd]. split.
  - rewrite calls_app, iters_app, Hcalls.
    change (calls (init_events a b)) with 3%nat.
    change (iters (init_events a b)) with 0%nat. lia.
  - exists t. split; [reflexivity|]. split; [reflexivity|]. split; [reflexivity|].
    exact Hcalls.
Qed.

(** C8, as amended: for [n_0 >= 1], in every run of [simp_adpt] every value
    given to the stack pointer [i] lies in [[-1, n_0 - 1]], every read or
    write of a row is at an index in [[0, n_0 - 1]], and no exception is
    raised; so at most [n_0] frames are on the stack at any time. *)
Theorem simp_adpt_indices_in_bounds self fuel a b tol n_0 :
  1 <= n_0 ->
  let run := simp_adpt_fuel fuel a b tol n_0 self in
  Forall (in_bounds n_0) (trace run) /\ (forall e, outcome run <> Raise e).
Proof.
  intros Hn run. subst run.
  destruct (simp_adpt_fuel_run self fuel a b tol n_0 Hn)
    as (r & t & Hrun & _ & Hraise & _ & _ & _ & Hin).
  rewrite Hrun. unfold trace, outcome. cbn [fst snd]. split; [|exact Hraise].
  apply Forall_app. split; [apply in_bounds_init; exact Hn | exact Hin].
Qed.

End SimpAdpt.

(** ** Runs of [gquad] and [gquad_adpt] *)

Section Gquad.
Context {A : Arith}.

(** The two points at which [gquad] evaluates the target function, the
    value it returns, and its events. *)
Definition gquad_left (a b : num) : num :=
  #1 /. #2 *. ((b -. a) *. (nneg (nsqrt #3) /. #3) +. a +. b).
Definition gquad_right (a b : num) : num :=
  #1 /. #2 *. ((b -. a) *. (nsqrt #3 /. #3) +. a +. b).
Definition gquad_value (self : NumMethods) (a b : num) : num :=
  (func self (gquad_left a b) +. func self (gquad_right a b)) *. (b -. a) /. #2.
Definition gquad_events (a b : num) : list event :=
  [Call (gquad_left a b); Call (gquad_right a b)].

Lemma gquad_run self a b :
  gquad a b self = (Ok (gquad_value self a b), self, gquad_events a b).
Proof. reflexivity. Qed.

(** What a call of [gquad_adpt] computes before it looks at its depth: the
    midpoint [c], the estimate [two_gauss] over the two halves, the quantity
    its test compares with [tol], and the six evaluations these cost. *)
Definition midpoint (a b : num) : num := (a +. b) /. #2.
Definition two_gauss_of (self : NumMethods) (a b : num) : num :=
  gquad_value self a (midpoint a b) +. gquad_value self (midpoint a b) b.
Definition gauss_err (self : NumMethods) (a b : num) : num :=
  nabs (gquad_value self a b -. two_gauss_of self a b).
Definition panel_events (a b : num) : list event :=
  gquad_events a b ++ gquad_events a (midpoint a b) ++ gquad_events (midpoint a b) b.

(** The acceptance tests of a call whose incremented level is [l]: the one
    at [l] uses the tolerance [tol] of the call, those below use the default
    tolerance, and none is made beyond depth [n_0]. *)
Definition tests_from (n_0 l : Z) (tol : num) (t : list event) : Prop :=
  forall d err tol' ok, In (Test d err tol' ok) t ->
    d <= n_0 /\ (d = l /\ tol' = tol \/ l < d /\ tol' = gquad_default_tol).

Lemma tests_from_deeper n_0 l (t : list event) :
  tests_from n_0 (l + 1) gquad_default_tol t ->
  forall d err tol' ok, In (Test d err tol' ok) t ->
    d <= n_0 /\ l < d /\ tol' = gquad_default_tol.
Proof.
  intros H d err tol' ok Hin.
  destruct (H d err tol' ok Hin) as (Hd & [[-> ->]|[Hlt ->]]); repeat split; auto; lia.
Qed.

(** The call that finds its incremented level beyond [n_0]. *)
Lemma gquad_adpt_fuel_max_depth self fuel a b level current_sum n_0 tol :
  level + 1 > n_0 ->
  gquad_adpt_fuel (S fuel) a b level current_sum n_0 tol self =
    (Ok current_sum, self, panel_events a b ++ [Print "Max depth reached"]).
Proof.
  intros Hl. cbn [gquad_adpt_fuel]. unfold bind at 1. rewrite gquad_run.
  unfold bind at 1. rewrite gquad_run. unfold bind at 1. rewrite gquad_run.
  destruct (Z.gtb_spec (level + 1) n_0); [|lia].
  reflexivity.
Qed.

(** The call that makes its test. *)
Lemma gquad_adpt_fuel_tested self fuel a b level current_sum n_0 tol :
  level + 1 <= n_0 ->
  gquad_adpt_fuel (S fuel) a b level current_sum n_0 tol self =
    match
      (if gauss_err self a b <.? tol
       then ret (current_sum +. two_gauss_of self a b)
       else
         let* current_sum :=
           gquad_adpt_fuel fuel a (midpoint a b) (level + 1) current_sum n_0
             gquad_default_tol in
         gquad_adpt_fuel fuel (midpoint a b) b (level + 1) current_sum n_0
           gquad_default_tol) self
    with
    | (r, self', t) =>
        (r, self',
         panel_events a b
         ++ Test (level + 1) (gauss_err self a b) tol (gauss_err self a b <.? tol) :: t)
    end.
Proof.
  intros Hl. cbn [gquad_adpt_fuel]. unfold bind at 1. rewrite gquad_run.
  unfold bind at 1. rewrite gquad_run. unfold bind at 1. rewrite gquad_run.
  destruct (Z.gtb_spec (level + 1) n_0); [lia|].
  unfold bind at 1. unfold test at 1. unfold bind at 1. unfold emit, ret at 1.
  fold (midpoint a b). fold (two_gauss_of self a b). fold (gauss_err self a b).
  unfold panel_events. cbn [app gquad_events].
  destruct (gauss_err self a b <.? tol); [reflexivity|].
  match goal with |- context [bind ?m ?k self] => destruct (bind m k self) as [[r self'] t] end.
  destruct r; reflexivity.
Qed.

Lemma no_test_in_panel a b d err tol ok :
  ~ In (Test d err tol ok) (panel_events a b).
Proof. unfold panel_events, gquad_events. simpl. intuition discriminate. Qed.

Lemma bind_timeout {X Y} (m : M X) (k : X -> M Y) self self1 t1 :
  m self = (Timeout, self1, t1) -> bind m k self = (Timeout, self1, t1).
Proof. unfold bind. intros ->. reflexivity. Qed.

(** Every run of [gquad_adpt]: it raises nothing, it ends when the fuel
    covers the levels left up to [n_0], and its tests are as [tests_from]
    says. *)
Lemma gquad_adpt_fuel_run self n_0 fuel :
  forall a b level current_sum tol,
  exists r t,
    gquad_adpt_fuel fuel a b level current_sum n_0 tol self = (r, self, t) /\
    (forall e, r <> Raise e) /\
    ((Z.to_nat (n_0 - level) < fuel)%nat -> exists v, r = Ok v) /\
    tests_from n_0 (level + 1) tol t.
Proof.
  induction fuel as [|fuel IH]; intros a b level current_sum tol.
  - exists Timeout, []. split; [reflexivity|]. split; [discriminate|].
    split; [lia|]. intros d err tol' ok [].
  - destruct (Z_gt_le_dec (level + 1) n_0) as [Hgt|Hle].
    + exists (Ok current_sum), (panel_events a b ++ [Print "Max depth reached"]).
      split; [apply gquad_adpt_fuel_max_depth; exact Hgt|].
      split; [discriminate|]. split; [eauto|].
      intros d err tol' ok Hin. apply in_app_or in Hin as [Hin|Hin].
      * destruct (no_test_in_panel _ _ _ _ _ _ Hin).
      * simpl in Hin. intuition discriminate.
    + rewrite (gquad_adpt_fuel_tested self fuel a b level current_sum n_0 tol Hle).
      destruct (gauss_err self a b <.? tol) eqn:Hacc.
      * eexists _, _. split; [reflexivity|]. split; [discriminate|]. split; [eauto|].
        intros d err tol' ok Hin. apply in_app_or in Hin as [Hin|Hin].
        { destruct (no_test_in_panel _ _ _ _ _ _ Hin). }
        simpl in Hin. destruct Hin as [Heq|[]]. injection Heq as <- <- <- <-.
        split; [lia|]. left. split; reflexivity.
      * destruct (IH a (midpoint a b) (level + 1) current_sum gquad_default_tol)
          as (r1 & t1 & Hrun1 & Hraise1 & Hend1 & Htests1).
        pose proof (tests_from_deeper _ _ _ Htests1) as Hdeep1.
        assert (Hhere : forall t d err tol' ok,
                  (forall d err tol' ok, In (Test d err tol' ok) t ->
                     d <= n_0 /\ level + 1 < d /\ tol' = gquad_default_tol) ->
                  In (Test d err tol' ok)
                     (panel_events a b ++ Test (level + 1) (gauss_err self a b) tol false :: t) ->
                  d <= n_0 /\
                  (d = level + 1 /\ tol' = tol \/ level + 1 < d /\ tol' = gquad_default_tol)).
        { intros t d err tol' ok Ht Hin. apply in_app_or in Hin as [Hin|Hin].
          { destruct (no_test_in_panel _ _ _ _ _ _ Hin). }
          destruct Hin as [Heq|Hin].
          - injection Heq as <- <- <- <-. split; [lia|]. left. split; reflexivity.
          - destruct (Ht _ _ _ _ Hin) as (? & ? & ?). split; [assumption|]. right. split; assumption. }
        destruct r1 as [cs1|e|].
        -- destruct (IH (midpoint a b) b (level + 1) cs1 gquad_default_tol)
             as (r2 & t2 & Hrun2 & Hraise2 & Hend2 & Htests2).
           pose proof (tests_from_deeper _ _ _ Htests2) as Hdeep2.
           rewrite (bind_run _ _ _ _ _ _ _ _ _ Hrun1 Hrun2).
           eexists _, _. split; [reflexivity|]. split; [exact Hraise2|].
           split; [intros Hf; apply Hend2; lia|].
           intros d err tol' ok Hin. apply (Hhere (t1 ++ t2) d err tol' ok); [|exact Hin].
           intros d' err' tol'' ok' Hin'. apply in_app_or in Hin' as [Hin'|Hin']; eauto.
        -- destruct (Hraise1 e eq_refl).
        -- rewrite (bind_timeout _ _ _ _ _ Hrun1).
           eexists _, _. split; [reflexivity|]. split; [discriminate|].
           split.
           { intros Hf. destruct Hend1 as [v Hv]; [lia | discriminate Hv]. }
           intros d err tol' ok Hin. apply (Hhere t1 d err tol' ok); [exact Hdeep1 | exact Hin].
Qed.

(** The recursive calls of a call at [level] are calls of [gquad_adpt] at
    [level + 1]. *)
Lemma gquad_adpt_fuel_below a b level current_sum n_0 tol :
  level + 1 <= n_0 ->
  gquad_adpt_fuel (Z.to_nat (n_0 - level)) a b (level + 1) current_sum n_0 tol =
    gquad_adpt a b (level + 1) current_sum n_0 tol.
Proof.
  intros Hl. unfold gquad_adpt.
  replace (Z.to_nat (n_0 - level)) with (S (Z.to_nat (n_0 - (level + 1)))) by lia.
  reflexivity.
Qed.

Lemma gquad_adpt_run self a b level current_sum n_0 tol :
  exists v t,
    gquad_adpt a b level current_sum n_0 tol self = (Ok v, self, t) /\
    tests_from n_0 (level + 1) tol t.
Proof.
  destruct (gquad_adpt_fuel_run self n_0 (S (Z.to_nat (n_0 - level)))
              a b level current_sum tol) as (r & t & Hrun & _ & Hend & Htests).
  destruct Hend as [v ->]; [lia|]. exists v, t. split; assumption.
Qed.

(** C3: [gquad_adpt] does not hand [tol] to its recursive calls.  When the
    test of a call at [level] rejects, the call continues as the two
    recursive calls made with the default tolerance; so every acceptance test
    below its own uses the default [10**(-7)], which is not the caller's
    [tol] when that differs from the default, and there is such a test as
    soon as [n_0] leaves room for one. *)
Theorem gquad_adpt_recursion_default_tol self a b level current_sum n_0 tol :
  tol <> gquad_default_tol ->
  level + 1 <= n_0 ->
  (gauss_err self a b <.? tol) = false ->
  let c := midpoint a b in
  let below :=
    bind (gquad_adpt a c (level + 1) current_sum n_0 gquad_default_tol)
         (fun s => gquad_adpt c b (level + 1) s n_0 gquad_default_tol) self in
  let run := gquad_adpt a b level current_sum n_0 tol self in
  run = (outcome below, instance_after below,
         panel_events a b
         ++ Test (level + 1) (gauss_err self a b) tol false :: trace below) /\
  (forall d err tol' ok, In (Test d err tol' ok) (trace run) ->
     level + 1 < d -> tol' = gquad_default_tol /\ tol' <> tol) /\
  (level + 2 <= n_0 ->
   exists err ok, In (Test (level + 2) err gquad_default_tol ok) (trace run)).
Proof.
  intros Htol Hl Hrej c below run.
  assert (Hrun : run = (outcome below, instance_after below,
                        panel_events a b
                        ++ Test (level + 1) (gauss_err self a b) tol false :: trace below)).
  { subst run. unfold gquad_adpt at 1.
    rewrite (gquad_adpt_fuel_tested self _ a b level current_sum n_0 tol Hl), Hrej.
    fold c.
    replace (Z.to_nat (n_0 - level)) with (S (Z.to_nat (n_0 - (level + 1)))) by lia.
    match goal with |- context [bind ?m ?k self] => change (bind m k self) with below end.
    clearbody below. destruct below as [[r self'] t]. reflexivity. }
  split; [exact Hrun|]. split.
  - intros d err tol' ok Hin Hd.
    destruct (gquad_adpt_run self a b level current_sum n_0 tol) as (v & t & Hfull & Htests).
    subst run. rewrite Hfull in Hin. unfold trace in Hin. cbn [snd] in Hin.
    destruct (Htests _ _ _ _ Hin) as (_ & [[Heq _]|[_ ->]]); [lia|].
    split; [reflexivity|]. intros Heq. apply Htol. symmetry. exact Heq.
  - intros Hroom. rewrite Hrun. unfold trace at 1. cbn [snd].
    destruct (gquad_adpt_run self a c (level + 1) current_sum n_0 gquad_default_tol)
      as (v1 & t1 & Hrun1 & _).
    pose proof Hrun1 as Hshape. unfold gquad_adpt in Hshape.
    rewrite (gquad_adpt_fuel_tested self _ a c (level + 1) current_sum n_0
               gquad_default_tol ltac:(lia)) in Hshape.
    match type of Hshape with
    | match ?run1 with _ => _ end = _ => destruct run1 as [[r1' self1'] t1']
    end.
    injection Hshape as _ _ Ht1.
    destruct (gquad_adpt_run self c b (level + 1) v1 n_0 gquad_default_tol)
      as (v2 & t2 & Hrun2 & _).
    subst below.
    rewrite (bind_run (gquad_adpt a c (level + 1) current_sum n_0 gquad_default_tol)
               (fun s => gquad_adpt c b (level + 1) s n_0 gquad_default_tol)
               self v1 self t1 (Ok v2) self t2 Hrun1 Hrun2).
    unfold trace. cbn [snd]. rewrite <- Ht1.
    replace (level + 2) with (level + 1 + 1) by lia.
    eexists _, _. apply in_or_app. right. right.
    apply in_or_app. left. simpl. do 6 right. left. reflexivity.
Qed.

(** C4: a call of [gquad_adpt] whose incremented level is beyond [n_0]
    prints the diagnostic and returns [current_sum] as it received it: the
    estimate over the two halves, for which it evaluated the target function
    six times, is not added, and what other branches added before is kept.
    It makes no acceptance test. *)
Theorem gquad_adpt_max_depth self fuel a b level current_sum n_0 tol :
  level + 1 > n_0 ->
  let run := gquad_adpt_fuel (S fuel) a b level current_sum n_0 tol self in
  run = (Ok current_sum, self, panel_events a b ++ [Print "Max depth reached"]) /\
  gquad_adpt a b level current_sum n_0 tol self = run /\
  calls (trace run) = 6%nat /\
  first_test (trace run) = None.
Proof.
  intros Hl run. subst run. unfold gquad_adpt.
  rewrite !(gquad_adpt_fuel_max_depth self _ a b level current_sum n_0 tol Hl).
  repeat split; reflexivity.
Qed.

(** C7: for [n_0 >= 1] both adaptive integrators return.  The loop of
    [simp_adpt] runs fewer than [2 ^ n_0] times, and [gquad_adpt], which
    nests at most [n_0 - level + 1] calls, makes each of its tests at a
    depth above [level] and not beyond [n_0]. *)
Theorem adaptive_integrators_terminate self a b tol n_0 :
  1 <= n_0 ->
  (exists v t,
     simp_adpt a b tol n_0 self = (Ok v, self, t) /\
     (iters t < 2 ^ Z.to_nat n_0)%nat) /\
  (forall level current_sum,
   exists v t,
     gquad_adpt a b level current_sum n_0 tol self = (Ok v, self, t) /\
     forall d err tol' ok, In (Test d err tol' ok) t -> level < d <= n_0).
Proof.
  intros Hn. split.
  - destruct (simp_adpt_fuel_run self (2 ^ Z.to_nat n_0) a b tol n_0 Hn)
      as (r & t & Hrun & _ & _ & Hend & _ & Hiters & _).
    destruct Hend as [v ->]; [lia|].
    exists v, (init_events a b ++ t). split; [exact Hrun|].
    rewrite iters_app. change (iters (init_events a b)) with 0%nat. lia.
  - intros level current_sum.
    destruct (gquad_adpt_run self a b level current_sum n_0 tol) as (v & t & Hrun & Htests).
    exists v, t. split; [exact Hrun|].
    intros d err tol' ok Hin. destruct (Htests _ _ _ _ Hin) as (Hd & [[-> _]|[Hlt _]]); lia.
Qed.

End Gquad.

(** ** The instance is left alone *)

Section Instance.
Context {A : Arith}.

(** A method body that hands the instance back as it received it. *)
Definition keeps_instance {X} (m : M X) : Prop :=
  forall self, instance_after (m self) = self.

Lemma keeps_ret {X} (x : X) : keeps_instance (ret x).
Proof. intros self. reflexivity. Qed.

Lemma keeps_raise {X} e : keeps_instance (@raise A X e).
Proof. intros self. reflexivity. Qed.

Lemma keeps_timeout {X} : keeps_instance (@timeout A X).
Proof. intros self. reflexivity. Qed.

Lemma keeps_emit ev : keeps_instance (emit ev).
Proof. intros self. reflexivity. Qed.

Lemma keeps_call x : keeps_instance (call x).
Proof. intros self. reflexivity. Qed.

Lemma keeps_bind {X Y} (m : M X) (k : X -> M Y) :
  keeps_instance m -> (forall x, keeps_instance (k x)) -> keeps_instance (bind m k).
Proof.
  intros Hm Hk self. specialize (Hm self).
  unfold instance_after in Hm. unfold bind, instance_after.
  destruct (m self) as [[[x|e|] self1] t1]; cbn in Hm; subst self1; try reflexivity.
  specialize (Hk x self). destruct (k x self) as [[r self2] t2]. exact Hk.
Qed.

Lemma keeps_for_each {X S} (xs : list X) (body : X -> S -> M S) :
  (forall x s, keeps_instance (body x s)) ->
  forall s, keeps_instance (for_each xs body s).
Proof.
  intros Hbody. induction xs as [|x xs IH]; intros s; cbn [for_each].
  - apply keeps_ret.
  - apply keeps_bind; [apply Hbody | exact IH].
Qed.

End Instance.

(** Proves [keeps_instance] of a body built from the statements above. *)
Ltac keeps :=
  repeat first
    [ apply keeps_ret | apply keeps_raise | apply keeps_timeout
    | apply keeps_emit | apply keeps_call
    | apply keeps_bind; [ | intros ? ]
    | apply keeps_for_each; intros ? ?
    | assumption
    | match goal with
      | |- keeps_instance (if ?c then _ else _) => destruct c
      | |- keeps_instance (match ?c with _ => _ end) => destruct c
      | |- keeps_instance (let '(_, _) := ?c in _) => destruct c
      end ].

Section Operations.
Context {A : Arith}.

Lemma keeps_getitem {X} (row : list X) j : keeps_instance (getitem row j).
Proof. unfold getitem. keeps. Qed.

Lemma keeps_setitem {X} (row : list X) j x : keeps_instance (setitem row j x).
Proof. unfold setitem. keeps. Qed.

Lemma keeps_assign_i j : keeps_instance (assign_i j).
Proof. unfold assign_i. keeps. Qed.

Lemma keeps_test d err tol : keeps_instance (test d err tol).
Proof. unfold test. keeps. Qed.

Lemma keeps_np_zeros n : keeps_instance (np_zeros n).
Proof. unfold np_zeros. keeps. Qed.

Lemma keeps_gquad a b : keeps_instance (gquad a b).
Proof. unfold gquad. keeps. Qed.

Lemma keeps_gquad_adpt_fuel fuel :
  forall a b level current_sum n_0 tol,
  keeps_instance (gquad_adpt_fuel fuel a b level current_sum n_0 tol).
Proof.
  induction fuel as [|fuel IH]; intros a b level current_sum n_0 tol; cbn [gquad_adpt_fuel].
  - apply keeps_timeout.
  - repeat (apply keeps_bind; [apply keeps_gquad | intros ?]).
    destruct (level + 1 >? n_0).
    + unfold print. keeps.
    + apply keeps_bind; [apply keeps_test | intros [|]]; [apply keeps_ret|].
      apply keeps_bind; [apply IH | intros ?; apply IH].
Qed.

Lemma keeps_loop_body n_0 st : keeps_instance (loop_body n_0 st).
Proof.
  unfold loop_body, print.
  repeat first
    [ apply keeps_bind;
      [ first [ apply keeps_getitem | apply keeps_setitem | apply keeps_call
              | apply keeps_emit | apply keeps_assign_i | apply keeps_test ]
      | intros ? ]
    | apply keeps_ret
    | match goal with |- keeps_instance (if ?c then _ else _) => destruct c end ].
Qed.

Lemma keeps_while_loop fuel n_0 : forall st, keeps_instance (while_loop fuel n_0 st).
Proof.
  induction fuel as [|fuel IH]; intros st; cbn [while_loop];
    destruct (ptr_i st >? -1); try apply keeps_ret; try apply keeps_timeout.
  apply keeps_bind; [apply keeps_emit | intros _].
  apply keeps_bind; [apply keeps_loop_body | intros [st'|v]]; [apply IH | apply keeps_ret].
Qed.

Lemma keeps_simp_adpt_init a b tol n_0 : keeps_instance (simp_adpt_init a b tol n_0).
Proof.
  unfold simp_adpt_init.
  repeat first
    [ apply keeps_bind;
      [ first [ apply keeps_getitem | apply keeps_setitem | apply keeps_call
              | apply keeps_assign_i | apply keeps_np_zeros ]
      | intros ? ]
    | apply keeps_ret ].
Qed.

(** A call of a method of the class, with its arguments. *)
Inductive operation :=
| Call_for_diff (x h : num)
| Call_end_3diff (x h : num)
| Call_mid_3diff (x h : num)
| Call_end_5diff (x h : num)
| Call_mid_5diff (x h : num)
| Call_second_diff (x h : num)
| Call_trapezoid_rule (a b : num)
| Call_trap_comp (a b : num) (n : Z)
| Call_simpsons_rule (a b : num)
| Call_simp_comp (a b : num) (n : Z)
| Call_simp_adpt (a b tol : num) (n_0 : Z)
| Call_gquad (a b : num)
| Call_gquad_adpt (a b : num) (level : Z) (current_sum : num) (n_0 : Z) (tol : num).

Definition perform (op : operation) : M num :=
  match op with
  | Call_for_diff x h => for_diff x h
  | Call_end_3diff x h => end_3diff x h
  | Call_mid_3diff x h => mid_3diff x h
  | Call_end_5diff x h => end_5diff x h
  | Call_mid_5diff x h => mid_5diff x h
  | Call_second_diff x h => second_diff x h
  | Call_trapezoid_rule a b => trapezoid_rule a b
  | Call_trap_comp a b n => trap_comp a b n
  | Call_simpsons_rule a b => simpsons_rule a b
  | Call_simp_comp a b n => simp_comp a b n
  | Call_simp_adpt a b tol n_0 => simp_adpt a b tol n_0
  | Call_gquad a b => gquad a b
  | Call_gquad_adpt a b level current_sum n_0 tol =>
      gquad_adpt a b level current_sum n_0 tol
  end.

Lemma keeps_perform op : keeps_instance (perform op).
Proof.
  destruct op; cbn [perform].
  - unfold for_diff, pydiv. keeps.
  - unfold end_3diff, pydiv. keeps.
  - unfold mid_3diff, pydiv. keeps.
  - unfold end_5diff, pydiv. keeps.
  - unfold mid_5diff, pydiv. keeps.
  - unfold second_diff, pysquare, pydiv. keeps.
  - unfold trapezoid_rule. keeps.
  - unfold trap_comp, pydiv. keeps.
  - unfold simpsons_rule. keeps.
  - unfold simp_comp, pydiv. keeps.
  - unfold simp_adpt, simp_adpt_fuel.
    apply keeps_bind; [apply keeps_simp_adpt_init | intros st; apply keeps_while_loop].
  - apply keeps_gquad.
  - apply keeps_gquad_adpt_fuel.
Qed.

(** C10: whatever the method and its arguments, a call hands the instance
    back as it received it ([self.func] is read and nothing is written), and
    the same call made again on the instance the first one left gives the
    same outcome and the same events. *)
Theorem operations_leave_instance (op : operation) (self : NumMethods) :
  let first := perform op self in
  instance_after first = self /\
  func (instance_after first) = func self /\
  perform op (instance_after first) = first.
Proof.
  intros first. subst first.
  pose proof (keeps_perform op self) as Hkeep. rewrite Hkeep. repeat split.
Qed.

End Operations.

(** ** Over the reals: the two-point rule *)

(** C9, as amended: over the reals, [gquad(a, b)] is
    [(b-a)/2 * (f(m - d) + f(m + d))] with [m = (a+b)/2] and
    [d = (b-a) * sqrt 3 / 6], which is the rule with nodes [-sqrt 3 / 3] and
    [sqrt 3 / 3] and weights 1 on [[-1, 1]] carried to [[a, b]] by
    [x |-> m + (b-a)/2 * x]; the two values are added, and the target
    function is evaluated twice, at [m - d] first.  Whatever the arithmetic,
    binary64 included, [gquad] returns the value of the source's own
    expression after two evaluations. *)
Theorem gquad_two_point_rule (self : @NumMethods real_arith) (a b : R) :
  let m := ((a + b) / 2)%R in
  let d := ((b - a) * sqrt 3 / 6)%R in
  @gquad real_arith a b self =
    (Ok ((b - a) / 2 * (func self (m - d) + func self (m + d)))%R, self,
     [@Call real_arith (m - d)%R; @Call real_arith (m + d)%R]) /\
  (m - d = m + (b - a) / 2 * (- sqrt 3 / 3))%R /\
  (m + d = m + (b - a) / 2 * (sqrt 3 / 3))%R /\
  calls (trace (@gquad real_arith a b self)) = 2%nat /\
  (forall (A : Arith) (self' : @NumMethods A) (a' b' : @num A),
     @gquad A a' b' self' =
       (Ok (gquad_value self' a' b'), self',
        [Call (gquad_left a' b'); Call (gquad_right a' b')]) /\
     calls (trace (@gquad A a' b' self')) = 2%nat).
Proof.
  intros m d.
  assert (Hl : @gquad_left real_arith a b = (m - d)%R).
  { unfold gquad_left, m, d. cbn. field. }
  assert (Hr : @gquad_right real_arith a b = (m + d)%R).
  { unfold gquad_right, m, d. cbn. field. }
  rewrite gquad_run. unfold gquad_value, gquad_events. rewrite Hl, Hr.
  split; [|split; [unfold m, d; field | split; [unfold m, d; field |]]].
  - do 3 f_equal. cbn. field.
  - split; [reflexivity|]. intros A self' a' b'. split; reflexivity.
Qed.

(** ** The composite trapezoid rule *)

Section TrapComp.
Context {A : Arith}.

(** The value of [mid_terms] after the loop of [trap_comp] has run over the
    indices [xs], starting from [m]. *)
Definition mid_terms_of (self : NumMethods) (a h : num) (xs : list Z) (m : num) : num :=
  fold_left (fun m i => m +. func self (a +. #i *. h)) xs m.

Lemma for_each_mid_terms self a h xs :
  forall m,
  for_each xs
    (fun i mid_terms => let* fx := call (a +. #i *. h) in ret (mid_terms +. fx)) m self =
  (Ok (mid_terms_of self a h xs m), self, map (fun i => Call (a +. #i *. h)) xs).
Proof.
  induction xs as [|i xs IH]; intros m; [reflexivity|].
  cbn [for_each map mid_terms_of fold_left].
  apply (bind_run _ _ self (m +. func self (a +. #i *. h)) self [Call (a +. #i *. h)]).
  - reflexivity.
  - apply IH.
Qed.

Lemma range_from_zero n : 1 <= n -> range 0 n = 0 :: range 1 n.
Proof.
  intros Hn. unfold range.
  replace (Z.to_nat (n - 0)) with (S (Z.to_nat (n - 1))) by lia.
  cbn [seq map]. f_equal. rewrite <- seq_shift, map_map.
  apply map_ext. intros k. lia.
Qed.

(** What [trap_comp] returns for [n >= 1]: its loop starts at [i = 0], so
    [mid_terms] holds [f(a)] besides the values at the interior points
    [a + i*h], [1 <= i < n], and [f(a)] enters the result three times. *)
Lemma trap_comp_run self a b n :
  1 <= n -> is_zero #n = false ->
  let h := (b -. a) /. #n in
  trap_comp a b n self =
    (Ok (h /. #2 *.
         (func self a
          +. #2 *. mid_terms_of self a h (range 1 n) (#0 +. func self (a +. #0 *. h))
          +. func self b)),
     self,
     Call (a +. #0 *. h) :: map (fun i => Call (a +. #i *. h)) (range 1 n)
     ++ [Call a; Call b]).
Proof.
  intros Hn Hz h. unfold trap_comp, pydiv. rewrite Hz. fold h.
  rewrite (range_from_zero n Hn).
  unfold bind at 1. unfold ret at 1. unfold bind at 1.
  rewrite for_each_mid_terms. reflexivity.
Qed.

End TrapComp.

(** ** On binary64: runs evaluated *)

(** [lambda x: x**4], written as products, and [lambda x: 1.0]. *)
Definition quartic : @NumMethods float_arith :=
  @Build_NumMethods float_arith (fun x : float => ((x * x) * (x * x))%float).
Definition constant_one : @NumMethods float_arith :=
  @Build_NumMethods float_arith (fun _ : float => 1%float).

Definition run_simp_adpt_fuel (fuel : nat) (self : @NumMethods float_arith)
    (a b tol : float) (n_0 : Z) :=
  @simp_adpt_fuel float_arith fuel a b tol n_0 self.
Definition run_simp_adpt (self : @NumMethods float_arith) (a b tol : float) (n_0 : Z) :=
  @simp_adpt float_arith a b tol n_0 self.
Definition run_gquad_adpt (self : @NumMethods float_arith) (a b : float) (level : Z)
    (current_sum : float) (n_0 : Z) (tol : float) :=
  @gquad_adpt float_arith a b level current_sum n_0 tol self.

(** The stack of [simp_adpt(0, 2, tol=0.0009765625, n_0=2)] on [x**4] after its
    first iteration, which rejected the whole interval and pushed its two
    halves at depth 2. *)
Definition after_first_push : @locals float_arith :=
  pushed quartic (initial quartic 0%float 2%float 0.0009765625%float 2)
    (initial_frame quartic 0%float 2%float 0.0009765625%float).
Definition left_half : @frame float_arith :=
  default (initial_frame quartic 0%float 2%float 0.0009765625%float)
    (frame_at after_first_push 1).

(** [simp_adpt(0, 2, tol=0.125)] on [x**4]: the first test compares
    [|s1 + s2 - s|], which is 0.25000000000000089, with 1.25 and accepts, although 0.25 is
    not below the [tol] of the call. *)
Lemma simp_adpt_first_test_not_tol :
  first_test (trace (run_simp_adpt quartic 0 2 0.125 20)) =
    Some (Test 1 0x1.000000000001p-2%float 1.25%float true) /\
  PrimFloat.ltb 0x1.000000000001p-2 0.125 = false /\
  PrimFloat.eqb 1.25 0.125 = false /\
  outcome (run_simp_adpt quartic 0 2 0.125 20) = Ok 0x1.9aaaaaaaaaaaap+2%float.
Proof. repeat split; reflexivity. Qed.

Lemma simp_adpt_first_tolerance_witness :
  first_test (trace (run_simp_adpt_fuel 1 quartic 0 2 0.125 20)) =
    Some (Test 1 (err_of quartic (initial_frame quartic 0%float 2%float 0.125%float))
            (PrimFloat.mul 10 0.125)
            (PrimFloat.ltb (err_of quartic (initial_frame quartic 0%float 2%float 0.125%float))
               (PrimFloat.mul 10 0.125))).
Proof.
  exact (proj2 (proj2 (proj2
    (simp_adpt_first_tolerance quartic 0%nat 0%float 2%float 0.125%float 20 ltac:(lia))))).
Defined.

(** C2 at [f = 1], [a = 0], [b = 1], [n = 2]: [trap_comp] returns 1.5 after
    evaluating [f] at 0, 0.5, 0 and 1, where the two panels
    [trapezoid_rule(0, 0.5)] and [trapezoid_rule(0.5, 1)] add up to 1. *)
Theorem trap_comp_counts_left_endpoint_again :
  @trap_comp float_arith 0%float 1%float 2 constant_one =
    (Ok 1.5%float, constant_one,
     [Call 0%float; Call 0.5%float; Call 0%float; Call 1%float]) /\
  (let* p1 := @trapezoid_rule float_arith 0%float 0.5%float in
   let* p2 := @trapezoid_rule float_arith 0.5%float 1%float in
   ret (PrimFloat.add p1 p2)) constant_one =
    (Ok 1%float, constant_one,
     [Call 0%float; Call 0.5%float; Call 0.5%float; Call 1%float]).
Proof. split; reflexivity. Qed.

Lemma simp_adpt_level_exceeded_witness :
  ptr_i after_first_push = 1 /\
  fr_l left_half = 2 /\
  @while_loop float_arith 1 2 after_first_push quartic =
    (Ok (approx after_first_push), quartic,
     Iter :: probe_events quartic 1 left_half ++ [Print "Level exceeded"]) /\
  outcome (run_simp_adpt quartic 0 2 0.0009765625 2) = Ok 0%float.
Proof.
  split; [reflexivity|]. split; [reflexivity|]. split; [|reflexivity].
  exact (simp_adpt_level_exceeded quartic 2 after_first_push left_half 0%nat
           ltac:(vm_compute; discriminate) eq_refl eq_refl ltac:(vm_compute; discriminate)).
Defined.

Lemma simp_adpt_evaluation_count_witness :
  calls (trace (run_simp_adpt_fuel 7 quartic 0 2 0.0009765625 3)) =
    (3 + 2 * iters (trace (run_simp_adpt_fuel 7 quartic 0 2 0.0009765625 3)))%nat /\
  iters (trace (run_simp_adpt_fuel 7 quartic 0 2 0.0009765625 3)) = 7%nat.
Proof.
  split; [|reflexivity].
  exact (proj1 (simp_adpt_evaluation_count quartic 7%nat 0%float 2%float
                  0.0009765625%float 3 ltac:(lia))).
Defined.

Lemma simp_adpt_indices_in_bounds_witness :
  Forall (in_bounds 3) (trace (run_simp_adpt_fuel 7 quartic 0 2 0.0009765625 3)) /\
  (forall e, outcome (run_simp_adpt_fuel 7 quartic 0 2 0.0009765625 3) <> Raise e).
Proof.
  exact (simp_adpt_indices_in_bounds quartic 7%nat 0%float 2%float 0.0009765625%float 3 ltac:(lia)).
Defined.

(** [simp_adpt(0, 1, tol=0.125, n_0=0)]: the rows are empty, the stack pointer
    is set to 0, which is outside [[-1, n_0 - 1]], and the first write,
    [e[0] = 10*tol], raises [IndexError]. *)
Lemma simp_adpt_without_rows :
  run_simp_adpt quartic 0 1 0.125 0 = (Raise IndexError, quartic, [Ptr 0; Slot 0]) /\
  ~ @in_bounds float_arith 0 (Ptr 0) /\
  ~ @in_bounds float_arith 0 (Slot 0) /\
  ~ Forall (in_bounds 0) (trace (run_simp_adpt quartic 0 1 0.125 0)).
Proof.
  split; [reflexivity|]. split; [simpl; lia|]. split; [simpl; lia|].
  intros H. apply Forall_cons in H. destruct H as [H _]. simpl in H. lia.
Qed.

(** The same call, counted: it ends with [IndexError] after no evaluation and
    no iteration, and 0 is not [3 + 2 * 0]. *)
Lemma simp_adpt_no_evaluation_without_rows :
  outcome (run_simp_adpt quartic 0 1 0.125 0) = Raise IndexError /\
  calls (trace (run_simp_adpt quartic 0 1 0.125 0)) = 0%nat /\
  iters (trace (run_simp_adpt quartic 0 1 0.125 0)) = 0%nat /\
  calls (trace (run_simp_adpt quartic 0 1 0.125 0)) <>
    (3 + 2 * iters (trace (run_simp_adpt quartic 0 1 0.125 0)))%nat.
Proof.
  split; [reflexivity|]. split; [reflexivity|]. split; [reflexivity|].
  change (0%nat <> 3%nat). discriminate.
Qed.

(** The formula of C9 computed operation by operation as it is written, with
    [m = (a+b)/2] and [d = (b-a) * sqrt 3 / 6]: its two nodes, and its value
    [(b-a)/2 * (f(m - d) + f(m + d))]. *)
Definition gquad_nodes_as_claimed {A : Arith} (a b : num) : num * num :=
  let m := (a +. b) /. #2 in
  let d := (b -. a) *. nsqrt #3 /. #6 in
  (m -. d, m +. d).
Definition gquad_as_claimed {A : Arith} (self : NumMethods) (a b : num) : num :=
  let '(x1, x2) := gquad_nodes_as_claimed a b in
  (b -. a) /. #2 *. (func self x1 +. func self x2).

(** [gquad(0, 3)] on [x**4], on binary64: the source's expression evaluates
    the target function at 0.6339745962155614 and 2.3660254037844384 and
    returns 47.249999999999972, where the formula of C9 has the nodes
    0.63397459621556129 and 2.3660254037844388 and the value
    47.250000000000014. *)
Lemma gquad_binary64_not_as_claimed :
  @gquad float_arith 0%float 3%float quartic =
    (Ok 0x1.79ffffffffffcp+5%float, quartic,
     [Call 0x1.4498517a7b356p-1%float; Call 0x1.2ed9eba16132ap+1%float]) /\
  @gquad_nodes_as_claimed float_arith 0%float 3%float =
    (0x1.4498517a7b355p-1%float, 0x1.2ed9eba16132bp+1%float) /\
  @gquad_as_claimed float_arith quartic 0%float 3%float = 0x1.7a00000000002p+5%float /\
  PrimFloat.eqb 0x1.79ffffffffffcp+5 0x1.7a00000000002p+5 = false /\
  PrimFloat.eqb 0x1.4498517a7b356p-1 0x1.4498517a7b355p-1 = false /\
  PrimFloat.eqb 0x1.2ed9eba16132ap+1 0x1.2ed9eba16132bp+1 = false.
Proof. repeat split; reflexivity. Qed.

Lemma gquad_adpt_recursion_default_tol_witness :
  run_gquad_adpt constant_one 0 1 0 0 2 0 =
    (Ok 1%float, constant_one,
     panel_events 0%float 1%float ++ Test 1 0%float 0%float false ::
     (panel_events 0%float 0.5%float ++ [Test 2 0%float 0x1.ad7f29abcaf48p-24%float true]) ++
     (panel_events 0.5%float 1%float ++ [Test 2 0%float 0x1.ad7f29abcaf48p-24%float true])) /\
  (forall d err tol' ok,
     In (Test d err tol' ok) (trace (run_gquad_adpt constant_one 0 1 0 0 2 0)) ->
     0 + 1 < d -> tol' = gquad_default_tol /\ tol' <> 0%float).
Proof.
  split; [reflexivity|].
  assert (Htol : 0%float <> @gquad_default_tol float_arith).
  { intros H. apply (f_equal PrimFloat.is_zero) in H. vm_compute in H. discriminate. }
  exact (proj1 (proj2 (gquad_adpt_recursion_default_tol constant_one 0%float 1%float 0
                         0%float 2 0%float Htol ltac:(lia) eq_refl))).
Defined.

Lemma gquad_adpt_max_depth_witness :
  run_gquad_adpt quartic 0 1 3 7 3 0.5 =
    (Ok 7%float, quartic, panel_events 0%float 1%float ++ [Print "Max depth reached"]).
Proof.
  destruct (gquad_adpt_max_depth quartic 0%nat 0%float 1%float 3 7%float 3 0.5%float
              ltac:(lia)) as (Hrun & Hsame & _).
  exact (eq_trans Hsame Hrun).
Defined.

Lemma adaptive_integrators_terminate_witness :
  (exists v t,
     run_simp_adpt quartic 0 2 0.0009765625 3 = (Ok v, quartic, t) /\
     (iters t < 2 ^ Z.to_nat 3)%nat) /\
  (forall level current_sum,
   exists v t,
     run_gquad_adpt quartic 0 2 level current_sum 3 0.0009765625 = (Ok v, quartic, t) /\
     forall d err tol' ok, In (Test d err tol' ok) t -> level < d <= 3).
Proof.
  exact (adaptive_integrators_terminate quartic 0%float 2%float 0.0009765625%float 3 ltac:(lia)).
Defined.

(** * Further properties of the methods *)

(** ** Polynomials over the reals *)

Section Polynomials.
Local Open Scope R_scope.

(** The polynomial with coefficients [cs], lowest degree first, and its
    first and second derivatives.  [apoly k cs] is the sum of the
    [c_i * x^(k+i+1) / (k+i+1)], whose derivative is [x^k * poly cs x]; so
    [apoly 0 cs] is an antiderivative of [poly cs]. *)
Fixpoint poly (cs : list R) (x : R) : R :=
  match cs with
  | [] => 0
  | c :: cs' => c + x * poly cs' x
  end.

Fixpoint dpoly (cs : list R) (x : R) : R :=
  match cs with
  | [] => 0
  | _ :: cs' => poly cs' x + x * dpoly cs' x
  end.

Fixpoint ddpoly (cs : list R) (x : R) : R :=
  match cs with
  | [] => 0
  | _ :: cs' => 2 * dpoly cs' x + x * ddpoly cs' x
  end.

Fixpoint apoly (k : nat) (cs : list R) (x : R) : R :=
  match cs with
  | [] => 0
  | c :: cs' => c / INR (S k) * x ^ S k + apoly (S k) cs' x
  end.

(** The instance whose target function is that polynomial. *)
Definition polynomial (cs : list R) : @NumMethods real_arith :=
  @Build_NumMethods real_arith (poly cs).

Lemma poly_derivative cs x : derivable_pt_lim (poly cs) x (dpoly cs x).
Proof.
  induction cs as [|c cs IH]; cbn [poly dpoly].
  - apply derivable_pt_lim_const.
  - replace (poly cs x + x * dpoly cs x) with (0 + (1 * poly cs x + x * dpoly cs x)) by ring.
    apply (derivable_pt_lim_plus (fun _ => c) (fun y => y * poly cs y)).
    + apply derivable_pt_lim_const.
    + apply (derivable_pt_lim_mult id (poly cs)); [apply derivable_pt_lim_id | exact IH].
Qed.

Lemma dpoly_derivative cs x : derivable_pt_lim (dpoly cs) x (ddpoly cs x).
Proof.
  induction cs as [|c cs IH]; cbn [dpoly ddpoly].
  - apply derivable_pt_lim_const.
  - replace (2 * dpoly cs x + x * ddpoly cs x)
      with (dpoly cs x + (1 * dpoly cs x + x * ddpoly cs x)) by ring.
    apply (derivable_pt_lim_plus (poly cs) (fun y => y * dpoly cs y)).
    + apply poly_derivative.
    + apply (derivable_pt_lim_mult id (dpoly cs)); [apply derivable_pt_lim_id | exact IH].
Qed.

Lemma apoly_derivative cs : forall k x, derivable_pt_lim (apoly k cs) x (x ^ k * poly cs x).
Proof.
  induction cs as [|c cs IH]; intros k x; cbn [apoly poly].
  - replace (x ^ k * 0) with 0 by ring. apply derivable_pt_lim_const.
  - replace (x ^ k * (c + x * poly cs x))
      with (c / INR (S k) * (INR (S k) * x ^ pred (S k)) + x ^ S k * poly cs x).
    2:{ cbn [pred pow]. field. apply not_0_INR. discriminate. }
    apply (derivable_pt_lim_plus (fun y => c / INR (S k) * y ^ S k) (apoly (S k) cs)).
    + apply (derivable_pt_lim_scal (fun y => y ^ S k) (c / INR (S k))).
      apply derivable_pt_lim_pow.
    + apply IH.
Qed.

(** The antiderivative of [poly cs] that vanishes at 0. *)
Definition antiderivative (cs : list R) : R -> R := apoly 0 cs.

Lemma antiderivative_derivative cs x :
  derivable_pt_lim (antiderivative cs) x (poly cs x).
Proof.
  replace (poly cs x) with (x ^ 0 * poly cs x) by (cbn [pow]; ring).
  apply apoly_derivative.
Qed.

End Polynomials.

(** ** Over the reals: the difference formulas on polynomials *)

Section RealDifferences.
Local Open Scope R_scope.
#[local] Existing Instance real_arith.

Lemma pydiv_real (x y : R) self :
  y <> 0 -> pydiv x y self = (Ok (x / y), self, []).
Proof.
  intros Hy. unfold pydiv. cbn [is_zero real_arith].
  destruct (Req_dec_T y 0) as [H0|_]; [destruct (Hy H0) | reflexivity].
Qed.

(** No real number is out of range. *)
Lemma step_pysquare_real {Y} (x : R) (k : R -> M Y) self r self' t :
  k (x * x) self = (r, self', t) -> bind (pysquare x) k self = (r, self', t).
Proof.
  intros Hk.
  apply (bind_run (@pysquare real_arith x) k self (x * x) self [] _ _ _ eq_refl Hk).
Qed.

(** Ends the run of a difference formula at its division. *)
Ltac divide Hh :=
  rewrite pydiv_real by (cbn; lra);
  do 3 f_equal; cbn; field; exact Hh.

(** Over the reals, with a step [h <> 0], [for_diff] returns the derivative
    at [x] of every polynomial of degree at most 1; it evaluates the
    polynomial at [x + h], then at [x]. *)
Theorem for_diff_exact_degree_1 (c0 c1 x h : R) :
  h <> 0 ->
  let self := polynomial [c0; c1] in
  derivable_pt_lim (func self) x (dpoly [c0; c1] x) /\
  for_diff x h self = (Ok (dpoly [c0; c1] x), self, [Call (x + h); Call x]).
Proof.
  intros Hh self. split; [apply poly_derivative|].
  unfold for_diff. do 2 run_step. divide Hh.
Qed.

(** Over the reals, with a step [h <> 0], [end_3diff] returns the derivative
    at [x] of every polynomial of degree at most 2, from its values at [x],
    [x + h] and [x + 2h]. *)
Theorem end_3diff_exact_degree_2 (c0 c1 c2 x h : R) :
  h <> 0 ->
  let self := polynomial [c0; c1; c2] in
  derivable_pt_lim (func self) x (dpoly [c0; c1; c2] x) /\
  end_3diff x h self =
    (Ok (dpoly [c0; c1; c2] x), self, [Call x; Call (x + h); Call (x + 2 * h)]).
Proof.
  intros Hh self. split; [apply poly_derivative|].
  unfold end_3diff. do 3 run_step. divide Hh.
Qed.

(** Over the reals, with a step [h <> 0], [mid_3diff] returns the derivative
    at [x] of every polynomial of degree at most 2, from its values at
    [x + h] and [x - h]. *)
Theorem mid_3diff_exact_degree_2 (c0 c1 c2 x h : R) :
  h <> 0 ->
  let self := polynomial [c0; c1; c2] in
  derivable_pt_lim (func self) x (dpoly [c0; c1; c2] x) /\
  mid_3diff x h self = (Ok (dpoly [c0; c1; c2] x), self, [Call (x + h); Call (x - h)]).
Proof.
  intros Hh self. split; [apply poly_derivative|].
  unfold mid_3diff. do 2 run_step. divide Hh.
Qed.

(** Over the reals, with a step [h <> 0], [end_5diff] returns the derivative
    at [x] of every polynomial of degree at most 4, from its values at [x],
    [x + h], [x + 2h], [x + 3h] and [x + 4h]. *)
Theorem end_5diff_exact_degree_4 (c0 c1 c2 c3 c4 x h : R) :
  h <> 0 ->
  let self := polynomial [c0; c1; c2; c3; c4] in
  derivable_pt_lim (func self) x (dpoly [c0; c1; c2; c3; c4] x) /\
  end_5diff x h self =
    (Ok (dpoly [c0; c1; c2; c3; c4] x), self,
     [Call x; Call (x + h); Call (x + 2 * h); Call (x + 3 * h); Call (x + 4 * h)]).
Proof.
  intros Hh self. split; [apply poly_derivative|].
  unfold end_5diff. do 5 run_step. divide Hh.
Qed.

(** Over the reals, with a step [h <> 0], [mid_5diff] returns the derivative
    at [x] of every polynomial of degree at most 4, from its values at
    [x - 2h], [x - h], [x + h] and [x + 2h]. *)
Theorem mid_5diff_exact_degree_4 (c0 c1 c2 c3 c4 x h : R) :
  h <> 0 ->
  let self := polynomial [c0; c1; c2; c3; c4] in
  derivable_pt_lim (func self) x (dpoly [c0; c1; c2; c3; c4] x) /\
  mid_5diff x h self =
    (Ok (dpoly [c0; c1; c2; c3; c4] x), self,
     [Call (x - 2 * h); Call (x - h); Call (x + h); Call (x + 2 * h)]).
Proof.
  intros Hh self. split; [apply poly_derivative|].
  unfold mid_5diff. do 4 run_step. divide Hh.
Qed.

(** Over the reals, with a step [h <> 0], [second_diff] returns the second
    derivative at [x] of every polynomial of degree at most 3, from its
    values at [x - h], [x] and [x + h]. *)
Theorem second_diff_exact_degree_3 (c0 c1 c2 c3 x h : R) :
  h <> 0 ->
  let self := polynomial [c0; c1; c2; c3] in
  derivable_pt_lim (func self) x (dpoly [c0; c1; c2; c3] x) /\
  derivable_pt_lim (dpoly [c0; c1; c2; c3]) x (ddpoly [c0; c1; c2; c3] x) /\
  second_diff x h self =
    (Ok (ddpoly [c0; c1; c2; c3] x), self, [Call (x - h); Call x; Call (x + h)]).
Proof.
  intros Hh self. split; [apply poly_derivative|]. split; [apply dpoly_derivative|].
  unfold second_diff. do 3 run_step. apply step_pysquare_real.
  rewrite pydiv_real by (cbn; nra).
  do 3 f_equal; cbn; field; exact Hh.
Qed.

End RealDifferences.

(** ** Over the reals: the single-panel rules on polynomials *)

Section RealRules.
Local Open Scope R_scope.
#[local] Existing Instance real_arith.

(** Over the reals, [trapezoid_rule(a, b)] is the integral over [[a, b]] of
    every polynomial of degree at most 1: the difference of an
    antiderivative at [b] and at [a]. *)
Theorem trapezoid_rule_exact_degree_1 (c0 c1 a b : R) :
  let self := polynomial [c0; c1] in
  let F := antiderivative [c0; c1] in
  (forall x, derivable_pt_lim F x (func self x)) /\
  trapezoid_rule a b self = (Ok (F b - F a), self, [Call a; Call b]).
Proof.
  intros self F. split; [intros x; apply antiderivative_derivative|].
  unfold trapezoid_rule. do 2 run_step. unfold ret.
  do 3 f_equal. cbn. field.
Qed.

(** Over the reals, [simpsons_rule(a, b)] is the integral over [[a, b]] of
    every polynomial of degree at most 3. *)
Theorem simpsons_rule_exact_degree_3 (c0 c1 c2 c3 a b : R) :
  let self := polynomial [c0; c1; c2; c3] in
  let F := antiderivative [c0; c1; c2; c3] in
  (forall x, derivable_pt_lim F x (func self x)) /\
  simpsons_rule a b self =
    (Ok (F b - F a), self, [Call a; Call ((b + a) / 2); Call b]).
Proof.
  intros self F. split; [intros x; apply antiderivative_derivative|].
  unfold simpsons_rule. do 3 run_step. unfold ret.
  do 3 f_equal. cbn. field.
Qed.

Lemma gquad_value_cubic (c0 c1 c2 c3 a b : R) :
  gquad_value (polynomial [c0; c1; c2; c3]) a b =
    antiderivative [c0; c1; c2; c3] b - antiderivative [c0; c1; c2; c3] a.
Proof.
  unfold gquad_value, gquad_left, gquad_right. cbn.
  pose proof (sqrt_sqrt 3 ltac:(lra)) as Hs. set (s := sqrt 3). fold s in Hs.
  apply Rminus_diag_uniq.
  transitivity ((s * s - 3) * (((b - a) / 2) ^ 3 * (2 * c2 + 6 * c3 * ((a + b) / 2)) / 9)).
  - field.
  - rewrite Hs. ring.
Qed.

(** Over the reals, [gquad(a, b)] is the integral over [[a, b]] of every
    polynomial of degree at most 3. *)
Theorem gquad_exact_degree_3 (c0 c1 c2 c3 a b : R) :
  let self := polynomial [c0; c1; c2; c3] in
  let F := antiderivative [c0; c1; c2; c3] in
  (forall x, derivable_pt_lim F x (func self x)) /\
  gquad a b self = (Ok (F b - F a), self, gquad_events a b).
Proof.
  intros self F. split; [intros x; apply antiderivative_derivative|].
  rewrite gquad_run. unfold self, F. rewrite gquad_value_cubic. reflexivity.
Qed.

End RealRules.

(** ** The composite rules *)

Section Composite.
Context {A : Arith}.

(** One pass of the loop of [simp_comp] at index [i], on the pair
    [(x_odd, x_even)]. *)
Definition simp_comp_step (self : NumMethods) (a h : num) (sums : num * num) (i : Z)
    : num * num :=
  let '(x_odd, x_even) := sums in
  let fx := func self (a +. #i *. h) in
  if i mod 2 =? 0 then (x_odd, x_even +. fx) else (x_odd +. fx, x_even).

(** The pair after the loop has run over the indices [xs]. *)
Definition simp_comp_sums (self : NumMethods) (a h : num) (xs : list Z)
    (sums : num * num) : num * num :=
  fold_left (simp_comp_step self a h) xs sums.

Lemma for_each_simp_comp_sums self a h xs :
  forall sums,
  for_each xs
    (fun i '(x_odd, x_even) =>
       let x := a +. #i *. h in
       if i mod 2 =? 0
       then let* fx := call x in ret (x_odd, x_even +. fx)
       else let* fx := call x in ret (x_odd +. fx, x_even)) sums self =
  (Ok (simp_comp_sums self a h xs sums), self, map (fun i => Call (a +. #i *. h)) xs).
Proof.
  induction xs as [|i xs IH]; intros [x_odd x_even]; [reflexivity|].
  cbn [for_each map simp_comp_sums fold_left].
  apply (bind_run _ _ self (simp_comp_step self a h (x_odd, x_even) i) self
           [Call (a +. #i *. h)]).
  - unfold simp_comp_step. destruct (i mod 2 =? 0); reflexivity.
  - apply IH.
Qed.

Lemma step_ret {X Y} (x : X) (k : X -> M Y) self r self' t :
  k x self = (r, self', t) -> bind (ret x) k self = (r, self', t).
Proof. intros Hk. apply (bind_run (ret x) k self x self [] _ _ _ eq_refl Hk). Qed.

(** A call of [simp_comp] that gets past its division. *)
Lemma simp_comp_run self a b n :
  is_zero #n = false ->
  let h := (b -. a) /. #n in
  simp_comp a b n self =
    (Ok (let '(x_odd, x_even) := simp_comp_sums self a h (range 1 n) (#0, #0) in
         h *. (func self a +. func self b +. #2 *. x_even +. #4 *. x_odd) /. #3),
     self,
     Call a :: Call b :: map (fun i => Call (a +. #i *. h)) (range 1 n)).
Proof.
  intros Hz h. unfold simp_comp, pydiv. rewrite Hz. fold h.
  apply step_ret. do 2 run_step.
  rewrite <- (app_nil_r (map _ _)).
  eapply bind_run; [apply for_each_simp_comp_sums|].
  destruct (simp_comp_sums self a h (range 1 n) (#0, #0)) as [x_odd x_even].
  reflexivity.
Qed.

Lemma range_empty lo hi : hi <= lo -> range lo hi = [].
Proof. intros H. unfold range. replace (Z.to_nat (hi - lo)) with 0%nat by lia. reflexivity. Qed.






End Composite.

(** With [n = 0] the division [h = (b-a)/n], the first statement of both
    composite rules, raises before the target function is evaluated. *)
Theorem composite_rules_zero_n (self : @NumMethods float_arith) (a b : float) :
  @trap_comp float_arith a b 0 self = (Raise ZeroDivisionError, self, []) /\
  @simp_comp float_arith a b 0 self = (Raise ZeroDivisionError, self, []).
Proof. split; reflexivity. Qed.

(** ** Over the reals: the composite rules as sums over panels *)

Section RealComposite.
Local Open Scope R_scope.
#[local] Existing Instance real_arith.

(** The number a method returns, when it returns one. *)
Definition value_of (m : M R) (self : NumMethods) : R :=
  match outcome (m self) with
  | Ok v => v
  | _ => 0
  end.

(** [g 0 + g 1 + ... + g (k - 1)] *)
Fixpoint sum_to (g : nat -> R) (k : nat) : R :=
  match k with
  | O => 0
  | S k' => sum_to g k' + g k'
  end.

(** The point [a + i*h] of the partition. *)
Definition node (a h : R) (i : nat) : R := a + IZR (Z.of_nat i) * h.

Lemma is_zero_real (n : Z) : (n <> 0)%Z -> is_zero #n = false.
Proof.
  intros Hn. cbn [is_zero of_Z real_arith].
  destruct (Req_dec_T (IZR n) 0) as [H0|_]; [|reflexivity].
  apply eq_IZR_R0 in H0. contradiction.
Qed.

Lemma range_snoc lo k :
  range lo (lo + Z.of_nat (S k)) = range lo (lo + Z.of_nat k) ++ [(lo + Z.of_nat k)%Z].
Proof.
  unfold range.
  replace (Z.to_nat (lo + Z.of_nat (S k) - lo)) with (S k) by lia.
  replace (Z.to_nat (lo + Z.of_nat k - lo)) with k by lia.
  rewrite seq_S, map_app. reflexivity.
Qed.

Lemma node_succ (a h : R) i : node a h (S i) = node a h i + h.
Proof. unfold node. rewrite Nat2Z.inj_succ, succ_IZR. ring. Qed.

(** The interior sum of [trap_comp] after the indices [1 .. k]. *)
Lemma mid_terms_of_nodes self (a h : R) k (s0 : R) :
  @eq R (mid_terms_of self a h (range 1 (1 + Z.of_nat k)) s0)
    (s0 + sum_to (fun j => func self (node a h (S j))) k).
Proof.
  induction k as [|k IH].
  - rewrite range_empty by lia. cbn [mid_terms_of fold_left sum_to]. ring.
  - rewrite range_snoc. unfold mid_terms_of. rewrite fold_left_app.
    fold (mid_terms_of self a h (range 1 (1 + Z.of_nat k)) s0). rewrite IH.
    cbn [fold_left sum_to]. unfold node.
    replace (Z.of_nat (S k)) with (1 + Z.of_nat k)%Z by lia.
    cbn [nadd nmul of_Z real_arith]. ring.
Qed.

Lemma trapezoid_rule_value self (p q : R) :
  value_of (trapezoid_rule p q) self = (q - p) / 2 * (func self p + func self q).
Proof. reflexivity. Qed.

Lemma simpsons_rule_value self (p q : R) :
  value_of (simpsons_rule p q) self =
    (q - p) / 2 / 3 * (func self p + 4 * func self ((q + p) / 2) + func self q).
Proof. reflexivity. Qed.

(** The sum of the one-panel trapezoids over the first [k] panels. *)
Definition trapezoid_panels (self : NumMethods) (a h : R) (k : nat) : R :=
  sum_to (fun i => value_of (trapezoid_rule (node a h i) (node a h (S i))) self) k.

Lemma trap_comp_sum self (a h : R) k :
  h / 2 * (func self (node a h 0)
           + 2 * (0 + func self (node a h 0)
                  + sum_to (fun j => func self (node a h (S j))) k)
           + func self (node a h (S k))) =
  trapezoid_panels self a h (S k) + h * func self (node a h 0).
Proof.
  unfold trapezoid_panels. induction k as [|k IH].
  - cbn [sum_to]. rewrite trapezoid_rule_value, node_succ. field.
  - cbn [sum_to]. cbn [sum_to] in IH. rewrite <- Rplus_assoc, (Rplus_comm _ (h * _)).
    rewrite (Rplus_comm _ (h * _)) in IH. rewrite <- Rplus_assoc, <- IH.
    rewrite trapezoid_rule_value, (node_succ a h (S k)). 
    replace (node a h (S k) + h - node a h (S k)) with h by ring.
    set (fk := func self (node a h (S k))). set (fk' := func self (node a h (S k) + h)).
    field.
Qed.

Lemma node_zero (a h : R) : node a h 0 = a.
Proof. unfold node. cbn. ring. Qed.

Lemma node_last (a b : R) n :
  (1 <= n)%Z -> node a ((b - a) / IZR n) (Z.to_nat n) = b.
Proof.
  intros Hn. unfold node. rewrite Z2Nat.id by lia. field.
  apply not_0_IZR. lia.
Qed.

(** Over the reals and for [n >= 1], [trap_comp(a, b, n)] is the sum of
    [trapezoid_rule] over the [n] panels [[a + i*h, a + (i+1)*h]] of
    [[a, b]], plus [h * f(a)]: the loop from [i = 0] counts the left end
    point once more. *)
Theorem trap_comp_panels_and_left_endpoint self (a b : R) n :
  (1 <= n)%Z ->
  let h := (b - a) / IZR n in
  node a h 0 = a /\ node a h (Z.to_nat n) = b /\
  outcome (trap_comp a b n self) =
    Ok (trapezoid_panels self a h (Z.to_nat n) + h * func self a).
Proof.
  intros Hn h. split; [apply node_zero|]. split; [apply node_last; exact Hn|].
  rewrite (trap_comp_run self a b n Hn (is_zero_real n ltac:(lia))).
  unfold outcome. cbn [fst]. f_equal.
  cbn [nadd nsub nmul ndiv of_Z real_arith]. fold h.
  set (k := Z.to_nat (n - 1)).
  replace (range 1 n) with (range 1 (1 + Z.of_nat k)) by (f_equal; lia).
  replace (Z.to_nat n) with (S k) by lia.
  rewrite mid_terms_of_nodes.
  assert (Ha : func self a = func self (node a h 0)) by (rewrite node_zero; reflexivity).
  assert (Hb : func self b = func self (node a h (S k))).
  { f_equal. symmetry. replace (S k) with (Z.to_nat n) by lia. apply node_last. exact Hn. }
  rewrite Ha, Hb. exact (trap_comp_sum self a h k).
Qed.


(** The sum of the one-panel Simpson estimates over the first [m] double
    panels [[a + 2k*h, a + (2k+2)*h]]. *)
Definition simpson_panels (self : NumMethods) (a h : R) (m : nat) : R :=
  sum_to (fun k => value_of (simpsons_rule (node a h (2 * k)) (node a h (S (S (2 * k))))) self) m.

Lemma simpson_panel_value self (a h : R) k :
  value_of (simpsons_rule (node a h (2 * k)) (node a h (S (S (2 * k))))) self =
    h / 3 * (func self (node a h (2 * k)) + 4 * func self (node a h (S (2 * k)))
             + func self (node a h (S (S (2 * k))))).
Proof.
  rewrite simpsons_rule_value.
  replace ((node a h (S (S (2 * k))) + node a h (2 * k)) / 2) with (node a h (S (2 * k)))
    by (rewrite !node_succ; field).
  rewrite (node_succ a h (S (2 * k))), (node_succ a h (2 * k)).
  set (p := node a h (2 * k)). set (f2 := func self (p + h + h)).
  set (f1 := func self (p + h)). set (f0 := func self p). field.
Qed.

Lemma simp_comp_step_even self (a h x_odd x_even : R) i :
  (i mod 2 = 0)%Z ->
  simp_comp_step self a h (x_odd, x_even) i = (x_odd, x_even + func self (a + IZR i * h)).
Proof. intros Hi. unfold simp_comp_step. rewrite Hi. reflexivity. Qed.

Lemma simp_comp_step_odd self (a h x_odd x_even : R) i :
  (i mod 2 = 1)%Z ->
  simp_comp_step self a h (x_odd, x_even) i = (x_odd + func self (a + IZR i * h), x_even).
Proof. intros Hi. unfold simp_comp_step. rewrite Hi. reflexivity. Qed.

(** The pair [(x_odd, x_even)] of [simp_comp] after the indices
    [1 .. 2j+1]. *)
Lemma simp_comp_sums_nodes self (a h : R) j :
  simp_comp_sums self a h (range 1 (1 + Z.of_nat (S (2 * j)))) (0, 0) =
    (sum_to (fun k => func self (node a h (S (2 * k)))) (S j),
     sum_to (fun k => func self (node a h (S (S (2 * k))))) j).
Proof.
  induction j as [|j IH].
  - reflexivity.
  - replace (S (2 * S j)) with (S (S (S (2 * j)))) by lia.
    do 2 rewrite range_snoc. unfold simp_comp_sums. rewrite !fold_left_app.
    fold (simp_comp_sums self a h (range 1 (1 + Z.of_nat (S (2 * j)))) (0, 0)).
    rewrite IH. cbn [fold_left].
    replace (1 + Z.of_nat (S (2 * j)))%Z with (Z.of_nat (S (S (2 * j)))) by lia.
    replace (1 + Z.of_nat (S (S (2 * j))))%Z with (Z.of_nat (S (S (S (2 * j))))) by lia.
    rewrite simp_comp_step_even, simp_comp_step_odd.
    + cbn [sum_to]. replace (2 * S j)%nat with (S (S (2 * j))) by lia. reflexivity.
    + replace (Z.of_nat (S (S (S (2 * j))))) with (1 + (Z.of_nat j + 1) * 2)%Z by lia.
      rewrite Z_mod_plus_full. reflexivity.
    + replace (Z.of_nat (S (S (2 * j)))) with ((Z.of_nat j + 1) * 2)%Z by lia.
      apply Z_mod_mult.
Qed.

Lemma simp_comp_sum self (a h : R) j :
  h * (func self (node a h 0) + func self (node a h (S (S (2 * j))))
       + 2 * sum_to (fun k => func self (node a h (S (S (2 * k))))) j
       + 4 * sum_to (fun k => func self (node a h (S (2 * k)))) (S j)) / 3 =
  simpson_panels self a h (S j).
Proof.
  unfold simpson_panels. induction j as [|j IH].
  - cbn [sum_to]. rewrite simpson_panel_value. cbn [Nat.mul Nat.add]. field.
  - cbn [sum_to]. cbn [sum_to] in IH. rewrite <- IH.
    rewrite (simpson_panel_value self a h (S j)).
    replace (2 * S j)%nat with (S (S (2 * j))) by lia.
    field.
Qed.

Lemma simp_comp_panels self (a b : R) n :
  (2 <= n)%Z -> (n mod 2 = 0)%Z ->
  let h := (b - a) / IZR n in
  node a h 0 = a /\ node a h (2 * Z.to_nat (n / 2)) = b /\
  outcome (simp_comp a b n self) = Ok (simpson_panels self a h (Z.to_nat (n / 2))).
Proof.
  intros Hn Heven h.
  pose proof (Z.div_mod n 2 ltac:(lia)) as Hdiv. rewrite Heven in Hdiv.
  set (j := Z.to_nat (n / 2 - 1)).
  assert (Hm : Z.to_nat (n / 2) = S j) by lia.
  assert (Hlast : node a h (S (S (2 * j))) = b).
  { replace (S (S (2 * j))) with (Z.to_nat n) by lia. apply node_last. lia. }
  split; [apply node_zero|]. split.
  { rewrite Hm. replace (2 * S j)%nat with (S (S (2 * j))) by lia. exact Hlast. }
  rewrite (simp_comp_run self a b n (is_zero_real n ltac:(lia))).
  unfold outcome. cbn [fst]. f_equal.
  cbn [nadd nsub nmul ndiv of_Z real_arith]. fold h.
  replace (range 1 n) with (range 1 (1 + Z.of_nat (S (2 * j)))) by (f_equal; lia).
  rewrite simp_comp_sums_nodes, Hm.
  assert (Ha : func self a = func self (node a h 0)) by (rewrite node_zero; reflexivity).
  assert (Hb : func self b = func self (node a h (S (S (2 * j))))) by (rewrite Hlast; reflexivity).
  rewrite Ha, Hb. exact (simp_comp_sum self a h j).
Qed.

(** Over the reals and for an even [n >= 2], [simp_comp(a, b, n)] is the sum
    of [simpsons_rule] over the [n / 2] double panels
    [[a + 2k*h, a + (2k+2)*h]] of [[a, b]]. *)
Theorem simp_comp_sum_of_panels self (a b : R) n :
  (2 <= n)%Z -> (n mod 2 = 0)%Z ->
  let h := (b - a) / IZR n in
  node a h 0 = a /\ node a h (2 * Z.to_nat (n / 2)) = b /\
  outcome (simp_comp a b n self) = Ok (simpson_panels self a h (Z.to_nat (n / 2))).
Proof. apply simp_comp_panels. Qed.

End RealComposite.

(** ** The calls of [gquad_adpt], counted *)

Section GquadCount.
Context {A : Arith}.

Definition is_print (ev : event) : bool :=
  match ev with Print _ => true | _ => false end.

(** The calls of [gquad_adpt] that left a mark in a trace: each makes one
    test or prints one diagnostic. *)
Definition nodes (t : list event) : nat := (count is_test t + count is_print t)%nat.

Lemma nodes_app t1 t2 : nodes (t1 ++ t2) = (nodes t1 + nodes t2)%nat.
Proof. unfold nodes. rewrite !count_app. lia. Qed.

Lemma calls_panel a b : calls (panel_events a b) = 6%nat.
Proof. reflexivity. Qed.

Lemma nodes_panel a b : nodes (panel_events a b) = 0%nat.
Proof. reflexivity. Qed.

Lemma gquad_adpt_fuel_nodes self n_0 fuel :
  forall a b level current_sum tol,
  let t := trace (gquad_adpt_fuel fuel a b level current_sum n_0 tol self) in
  calls t = (6 * nodes t)%nat /\ (nodes t <= 2 ^ fuel - 1)%nat.
Proof.
  induction fuel as [|fuel IH]; intros a b level current_sum tol t; subst t.
  - split; [reflexivity | apply Nat.le_0_l].
  - assert (Hpow : (1 <= 2 ^ fuel)%nat) by (apply Nat.neq_0_lt_0, Nat.pow_nonzero; lia).
    rewrite Nat.pow_succ_r'.
    destruct (Z_gt_le_dec (level + 1) n_0) as [Hgt|Hle].
    + rewrite (gquad_adpt_fuel_max_depth self fuel a b level current_sum n_0 tol Hgt).
      unfold trace. cbn [snd]. rewrite calls_app, nodes_app, calls_panel, nodes_panel.
      change (calls [Print "Max depth reached"]) with 0%nat.
      change (nodes [Print "Max depth reached"]) with 1%nat. lia.
    + rewrite (gquad_adpt_fuel_tested self fuel a b level current_sum n_0 tol Hle).
      destruct (gauss_err self a b <.? tol).
      * unfold trace, ret. cbn [snd]. rewrite calls_app, nodes_app, calls_panel, nodes_panel.
        cbn. lia.
      * destruct (gquad_adpt_fuel_run self n_0 fuel a (midpoint a b) (level + 1)
                    current_sum gquad_default_tol) as (r1 & t1 & Hrun1 & Hraise1 & _).
        pose proof (IH a (midpoint a b) (level + 1) current_sum gquad_default_tol) as IH1.
        cbv zeta in IH1. rewrite Hrun1 in IH1. unfold trace in IH1. cbn [snd] in IH1.
        destruct IH1 as (Hc1 & Hn1).
        assert (Hhead : forall t',
                  calls t' = (6 * nodes t')%nat -> (nodes t' <= 2 * (2 ^ fuel - 1))%nat ->
                  calls (panel_events a b ++
                         Test (level + 1) (gauss_err self a b) tol false :: t') =
                    (6 * nodes (panel_events a b ++
                                Test (level + 1) (gauss_err self a b) tol false :: t'))%nat /\
                  (nodes (panel_events a b ++
                          Test (level + 1) (gauss_err self a b) tol false :: t')
                   <= 2 * 2 ^ fuel - 1)%nat).
        { intros t' Hc Hn.
          change (Test (level + 1) (gauss_err self a b) tol false :: t')
            with ([Test (level + 1) (gauss_err self a b) tol false] ++ t').
          rewrite !calls_app, !nodes_app, calls_panel, nodes_panel.
          change (calls [Test (level + 1) (gauss_err self a b) tol false]) with 0%nat.
          change (nodes [Test (level + 1) (gauss_err self a b) tol false]) with 1%nat.
          lia. }
        destruct r1 as [cs1|e|].
        -- destruct (gquad_adpt_fuel_run self n_0 fuel (midpoint a b) b (level + 1)
                       cs1 gquad_default_tol) as (r2 & t2 & Hrun2 & _).
           pose proof (IH (midpoint a b) b (level + 1) cs1 gquad_default_tol) as IH2.
           cbv zeta in IH2. rewrite Hrun2 in IH2. unfold trace in IH2. cbn [snd] in IH2.
           destruct IH2 as (Hc2 & Hn2).
           rewrite (bind_run _ _ _ _ _ _ _ _ _ Hrun1 Hrun2).
           unfold trace. cbn [snd]. apply Hhead.
           ++ rewrite calls_app, nodes_app. lia.
           ++ rewrite nodes_app. lia.
        -- destruct (Hraise1 e eq_refl).
        -- rewrite (bind_timeout _ _ _ _ _ Hrun1).
           unfold trace. cbn [snd]. apply Hhead; [exact Hc1 | lia].
Qed.

(** Every call of [gquad_adpt], recursive or not, evaluates the target
    function six times, and a call at [level] has fewer than
    [2 ^ (n_0 - level + 1)] calls under it, itself included. *)
Theorem gquad_adpt_evaluations self a b level current_sum n_0 tol :
  let t := trace (gquad_adpt a b level current_sum n_0 tol self) in
  calls t = (6 * nodes t)%nat /\
  (nodes t <= 2 ^ S (Z.to_nat (n_0 - level)) - 1)%nat.
Proof. apply gquad_adpt_fuel_nodes. Qed.

End GquadCount.

(** ** Over the reals: [gquad_adpt] *)

Section RealGquadAdpt.
Local Open Scope R_scope.
#[local] Existing Instance real_arith.

Lemma nlt_real_true (x y : R) : x < y -> (x <.? y) = true.
Proof.
  intros H. cbn [nlt real_arith]. destruct (Rlt_dec x y); [reflexivity | contradiction].
Qed.

Lemma nlt_real_false (x y : R) : y <= x -> (x <.? y) = false.
Proof.
  intros H. cbn [nlt real_arith]. destruct (Rlt_dec x y); [lra | reflexivity].
Qed.

Lemma gauss_err_cubic (c0 c1 c2 c3 a b : R) :
  @eq R (gauss_err (polynomial [c0; c1; c2; c3]) a b) 0 /\
  @eq R (two_gauss_of (polynomial [c0; c1; c2; c3]) a b)
    (antiderivative [c0; c1; c2; c3] b - antiderivative [c0; c1; c2; c3] a).
Proof.
  unfold gauss_err, two_gauss_of. rewrite !gquad_value_cubic.
  cbn [nadd nsub nabs real_arith]. split; [|ring].
  match goal with |- Rabs ?x = 0 => replace x with 0 by ring end.
  apply Rabs_R0.
Qed.

(** On a polynomial of degree at most 3, whatever the interval, a call of
    [gquad_adpt] with a positive tolerance and room for one level accepts
    at its own test and adds the integral to [current_sum]. *)
Theorem gquad_adpt_exact_degree_3 (c0 c1 c2 c3 a b current_sum tol : R) (level n_0 : Z) :
  (level + 1 <= n_0)%Z -> 0 < tol ->
  let self := polynomial [c0; c1; c2; c3] in
  let F := antiderivative [c0; c1; c2; c3] in
  (forall x, derivable_pt_lim F x (func self x)) /\
  gquad_adpt a b level current_sum n_0 tol self =
    (Ok (current_sum + (F b - F a)), self,
     panel_events a b ++ [Test (level + 1) 0 tol true]).
Proof.
  intros Hl Htol self F. split; [intros x; apply antiderivative_derivative|].
  unfold gquad_adpt. rewrite (gquad_adpt_fuel_tested self _ a b level current_sum n_0 tol Hl).
  destruct (gauss_err_cubic c0 c1 c2 c3 a b) as (Herr & Htwo).
  fold self in Herr, Htwo. rewrite Herr, Htwo, (nlt_real_true 0 tol Htol).
  reflexivity.
Qed.

(** The accumulator only ever has estimates added to it: a run from
    [current_sum] makes the calls and the tests of the run from 0, and
    returns [current_sum] plus what that run returns. *)
Lemma gquad_adpt_fuel_additive self n_0 fuel :
  forall (a b : R) level (current_sum tol : R),
  let from_zero := gquad_adpt_fuel fuel a b level 0 n_0 tol self in
  gquad_adpt_fuel fuel a b level current_sum n_0 tol self =
    (match outcome from_zero with
     | Ok v => Ok (current_sum + v)
     | r => r
     end, self, trace from_zero).
Proof.
  induction fuel as [|fuel IH]; intros a b level current_sum tol from_zero; subst from_zero.
  - reflexivity.
  - destruct (Z_gt_le_dec (level + 1) n_0) as [Hgt|Hle].
    + rewrite !(gquad_adpt_fuel_max_depth self fuel a b level _ n_0 tol Hgt).
      unfold outcome, trace. cbn [fst snd]. do 3 f_equal.
      change (@num real_arith) with R. ring.
    + rewrite !(gquad_adpt_fuel_tested self fuel a b level _ n_0 tol Hle).
      destruct (gauss_err self a b <.? tol).
      * unfold ret, outcome, trace. cbn [fst snd]. do 3 f_equal.
        change (@num real_arith) with R. cbn [nadd real_arith]. ring.
      * set (c := @midpoint real_arith a b).
        destruct (gquad_adpt_fuel_run self n_0 fuel a c (level + 1) 0 gquad_default_tol)
          as (r1 & t1 & Hrun1 & Hraise1 & _).
        pose proof (IH a c (level + 1)%Z current_sum gquad_default_tol) as IH1.
        cbv zeta in IH1. rewrite Hrun1 in IH1. unfold outcome, trace in IH1. cbn [fst snd] in IH1.
        destruct r1 as [v1|e|].
        -- destruct (gquad_adpt_fuel_run self n_0 fuel c b (level + 1) 0 gquad_default_tol)
             as (r2 & t2 & Hrun2 & _).
           pose proof (IH c b (level + 1)%Z (current_sum + v1) gquad_default_tol) as IH2.
           pose proof (IH c b (level + 1)%Z v1 gquad_default_tol) as IH3.
           cbv zeta in IH2, IH3. rewrite Hrun2 in IH2, IH3.
           unfold outcome, trace in IH2, IH3. cbn [fst snd] in IH2, IH3.
           rewrite (bind_run _ _ _ _ _ _ _ _ _ Hrun1 IH3).
           rewrite (bind_run _ _ _ _ _ _ _ _ _ IH1 IH2).
           unfold outcome, trace. cbn [fst snd].
           destruct r2 as [v2|e|]; [|reflexivity|reflexivity].
           do 3 f_equal. change (@num real_arith) with R. ring.
        -- destruct (Hraise1 e eq_refl).
        -- rewrite (bind_timeout _ _ _ _ _ Hrun1), (bind_timeout _ _ _ _ _ IH1).
           reflexivity.
Qed.

(** Over the reals, a call of [gquad_adpt] from [current_sum] returns
    [current_sum] plus what the same call from 0 returns, with the same
    events. *)
Theorem gquad_adpt_accumulator_additive self (a b current_sum tol : R) (level n_0 : Z) :
  exists v t,
    gquad_adpt a b level 0 n_0 tol self = (Ok v, self, t) /\
    gquad_adpt a b level current_sum n_0 tol self = (Ok (current_sum + v), self, t).
Proof.
  destruct (gquad_adpt_run self a b level 0 n_0 tol) as (v & t & Hrun & _).
  exists v, t. split; [exact Hrun|].
  unfold gquad_adpt. rewrite gquad_adpt_fuel_additive.
  unfold gquad_adpt in Hrun. rewrite Hrun. reflexivity.
Qed.

End RealGquadAdpt.

(** ** [simp_adpt]: the ends of the range of [n_0], and the first test *)

Section SimpAdptEdges.
Context {A : Arith}.

(** With [n_0 <= 0] the call stops while it sets up its rows, before it
    evaluates the target function: [np.zeros] refuses a negative length,
    and rows of length 0 have no slot 0 to write [10*tol] to. *)
Theorem simp_adpt_without_depth self a b tol n_0 :
  n_0 <= 0 ->
  simp_adpt a b tol n_0 self =
    if n_0 =? 0 then (Raise IndexError, self, [Ptr 0; Slot 0])
    else (Raise ValueError, self, [Ptr 0]).
Proof. intros Hn. destruct n_0 as [|p|p]; try lia; reflexivity. Qed.

Lemma while_loop_empty fuel n_0 st self :
  ptr_i st = -1 -> while_loop fuel n_0 st self = (Ok (approx st), self, []).
Proof. intros Hi. destruct fuel; cbn [while_loop]; rewrite Hi; reflexivity. Qed.

(** The run whose first test accepts: one iteration, five evaluations. *)
Lemma simp_adpt_fuel_accept_first self fuel a b tol n_0 :
  1 <= n_0 ->
  let fr := initial_frame self a b tol in
  accepts self fr = true ->
  simp_adpt_fuel (S fuel) a b tol n_0 self =
    (Ok (#0 +. (s1_of self fr +. s2_of self fr)), self,
     init_events a b ++ Iter :: probe_events self 0 fr).
Proof.
  intros Hn fr Hacc. unfold simp_adpt_fuel.
  apply (bind_run _ _ _ _ _ _ _ _ _ (simp_adpt_init_run self a b tol n_0 Hn)).
  cbn [while_loop]. change (ptr_i (initial self a b tol n_0)) with 0.
  cbn [Z.gtb Z.compare]. apply step_emit.
  rewrite <- (app_nil_r (probe_events self 0 fr)).
  apply (bind_run _ _ _ _ _ _ _ _ _
           (loop_body_accept n_0 (initial self a b tol n_0) self fr ltac:(cbn; lia)
              (frame_at_initial self a b tol n_0 Hn) Hacc)).
  apply while_loop_empty. reflexivity.
Qed.

Lemma simp_adpt_accept_first self a b tol n_0 :
  1 <= n_0 ->
  let fr := initial_frame self a b tol in
  accepts self fr = true ->
  simp_adpt a b tol n_0 self =
    (Ok (#0 +. (s1_of self fr +. s2_of self fr)), self,
     init_events a b ++ Iter :: probe_events self 0 fr).
Proof.
  intros Hn fr Hacc. unfold simp_adpt.
  assert (Hpow : (1 <= 2 ^ Z.to_nat n_0)%nat) by (apply Nat.neq_0_lt_0, Nat.pow_nonzero; lia).
  destruct (2 ^ Z.to_nat n_0)%nat as [|fuel]; [lia|].
  apply simp_adpt_fuel_accept_first; assumption.
Qed.

End SimpAdptEdges.

(** ** Over the reals: the first test of [simp_adpt] *)

Section RealSimpAdpt.
Local Open Scope R_scope.
#[local] Existing Instance real_arith.

(** Over the reals, a call of [simp_adpt] whose first test accepts returns
    what [simp_comp] returns for four panels, after five evaluations. *)
Theorem simp_adpt_accepts_at_once self (a b tol : R) (n_0 : Z) :
  (1 <= n_0)%Z ->
  accepts self (initial_frame self a b tol) = true ->
  outcome (simp_adpt a b tol n_0 self) = outcome (simp_comp a b 4 self) /\
  calls (trace (simp_adpt a b tol n_0 self)) = 5%nat /\
  iters (trace (simp_adpt a b tol n_0 self)) = 1%nat.
Proof.
  intros Hn Hacc. rewrite (simp_adpt_accept_first self a b tol n_0 Hn Hacc).
  split; [|split; reflexivity].
  rewrite (simp_comp_run self a b 4 (is_zero_real 4 ltac:(lia))).
  unfold outcome. cbn [fst]. f_equal.
  change (range 1 4) with [1; 2; 3]%Z. unfold simp_comp_sums. cbn [fold_left].
  rewrite simp_comp_step_odd by reflexivity.
  rewrite simp_comp_step_even by reflexivity.
  rewrite simp_comp_step_odd by reflexivity.
  unfold s1_of, s2_of, fd_of, fe_of, initial_frame.
  cbn [fr_h fr_a0 fr_fa fr_fb fr_fc nadd nsub nmul ndiv of_Z real_arith].
  replace (a + (b - a) / 2 / 2) with (a + 1 * ((b - a) / 4)) by field.
  replace (a + 3 * ((b - a) / 2) / 2) with (a + 3 * ((b - a) / 4)) by field.
  replace (a + (b - a) / 2) with (a + 2 * ((b - a) / 4)) by field.
  change (@num real_arith) with R. field.
Qed.

Lemma simpson_halves_cubic (c0 c1 c2 c3 a b tol : R) :
  let self := polynomial [c0; c1; c2; c3] in
  let fr := initial_frame self a b tol in
  @eq R (err_of self fr) 0 /\
  @eq R (0 + (s1_of self fr + s2_of self fr))
    (antiderivative [c0; c1; c2; c3] b - antiderivative [c0; c1; c2; c3] a).
Proof.
  intros self fr. unfold err_of, s1_of, s2_of, fd_of, fe_of, fr, initial_frame, self.
  cbn [fr_h fr_a0 fr_fa fr_fb fr_fc fr_s func polynomial
       nadd nsub nmul ndiv nabs of_Z real_arith].
  split.
  - match goal with |- Rabs ?x = 0 => replace x with 0 by (cbn; field) end.
    apply Rabs_R0.
  - cbn. field.
Qed.

(** On a polynomial of degree at most 3, with a positive tolerance and
    [n_0 >= 1], [simp_adpt] accepts the whole interval at its first test
    and returns the integral. *)
Theorem simp_adpt_exact_degree_3 (c0 c1 c2 c3 a b tol : R) (n_0 : Z) :
  (1 <= n_0)%Z -> 0 < tol ->
  let self := polynomial [c0; c1; c2; c3] in
  let F := antiderivative [c0; c1; c2; c3] in
  (forall x, derivable_pt_lim F x (func self x)) /\
  outcome (simp_adpt a b tol n_0 self) = Ok (F b - F a) /\
  calls (trace (simp_adpt a b tol n_0 self)) = 5%nat.
Proof.
  intros Hn Htol self F. split; [intros x; apply antiderivative_derivative|].
  destruct (simpson_halves_cubic c0 c1 c2 c3 a b tol) as (Herr & Hsum).
  assert (Hacc : accepts self (initial_frame self a b tol) = true).
  { unfold accepts. fold self in Herr. rewrite Herr. apply nlt_real_true.
    cbn [fr_e initial_frame nmul of_Z real_arith]. lra. }
  rewrite (simp_adpt_accept_first self a b tol n_0 Hn Hacc).
  split; [|reflexivity].
  unfold outcome. cbn [fst]. f_equal. exact Hsum.
Qed.

End RealSimpAdpt.

(** ** [simp_adpt]: the frames on the stack *)

Section StackFrames.
Context {A : Arith}.

(** The two frames that replace a frame that is split: its right half,
    stored in the frame's own slot, and its left half, stored on top. *)
Definition right_child (self : NumMethods) (fr : frame) : frame :=
  {| fr_e := fr_e fr /. #2; fr_a0 := fr_a0 fr +. fr_h fr; fr_h := fr_h fr /. #2;
     fr_fa := fr_fc fr; fr_fc := fe_of self fr; fr_fb := fr_fb fr;
     fr_s := s2_of self fr; fr_l := fr_l fr + 1 |}.
Definition left_child (self : NumMethods) (fr : frame) : frame :=
  {| fr_e := fr_e fr /. #2; fr_a0 := fr_a0 fr; fr_h := fr_h fr /. #2;
     fr_fa := fr_fa fr; fr_fc := fd_of self fr; fr_fb := fr_fc fr;
     fr_s := s1_of self fr; fr_l := fr_l fr + 1 |}.

(** Every frame on the stack satisfies [P]. *)
Definition stack_all (P : frame -> Prop) (st : locals) : Prop :=
  forall k fr, Z.of_nat k <= ptr_i st -> frame_at st k = Some fr -> P fr.

Lemma lookup_pushed_top {X} (l : list X) k x y :
  (S k < length l)%nat -> <[S k := x]> (<[k := y]> l) !! S k = Some x.
Proof. intros Hk. apply list_lookup_insert_eq. rewrite length_insert. exact Hk. Qed.

Lemma lookup_pushed_slot {X} (l : list X) k x y :
  (k < length l)%nat -> <[S k := x]> (<[k := y]> l) !! k = Some y.
Proof.
  intros Hk. rewrite list_lookup_insert_ne by lia. apply list_lookup_insert_eq. exact Hk.
Qed.

Lemma lookup_pushed_below {X} (l : list X) k j x y :
  (j < k)%nat -> <[S k := x]> (<[k := y]> l) !! j = l !! j.
Proof. intros Hj. rewrite !list_lookup_insert_ne by lia. reflexivity. Qed.

Lemma frame_at_pushed_top self n st fr :
  rows_length n st -> 0 <= ptr_i st -> (S (Z.to_nat (ptr_i st)) < n)%nat ->
  frame_at (pushed self st fr) (S (Z.to_nat (ptr_i st))) = Some (left_child self fr).
Proof.
  intros (Le & La0 & Lh & Lfa & Lfc & Lfb & Ls & Ll) Hi Hk.
  unfold frame_at, pushed. cbn [row_e row_a0 row_h row_fa row_fc row_fb row_s row_l].
  rewrite !lookup_pushed_top by lia.
  reflexivity.
Qed.

Lemma frame_at_pushed_slot self n st fr :
  rows_length n st -> 0 <= ptr_i st -> (S (Z.to_nat (ptr_i st)) < n)%nat ->
  frame_at (pushed self st fr) (Z.to_nat (ptr_i st)) = Some (right_child self fr).
Proof.
  intros (Le & La0 & Lh & Lfa & Lfc & Lfb & Ls & Ll) Hi Hk.
  unfold frame_at, pushed. cbn [row_e row_a0 row_h row_fa row_fc row_fb row_s row_l].
  rewrite !lookup_pushed_slot by lia.
  reflexivity.
Qed.

Lemma frame_at_pushed_below self st fr k :
  (k < Z.to_nat (ptr_i st))%nat ->
  frame_at (pushed self st fr) k = frame_at st k.
Proof.
  intros Hk.
  unfold frame_at, pushed. cbn [row_e row_a0 row_h row_fa row_fc row_fb row_s row_l].
  rewrite !lookup_pushed_below by lia.
  reflexivity.
Qed.

Lemma stack_all_accepted P self st fr :
  stack_all P st -> stack_all P (accepted self st fr).
Proof.
  intros Hall k fr' Hk Hfr'. apply (Hall k fr'); [cbn in Hk; lia | exact Hfr'].
Qed.

Lemma stack_all_pushed P self n st fr :
  rows_length n st -> 0 <= ptr_i st -> (S (Z.to_nat (ptr_i st)) < n)%nat ->
  stack_all P st -> P (left_child self fr) -> P (right_child self fr) ->
  stack_all P (pushed self st fr).
Proof.
  intros Hlen Hi Hn Hall Hleft Hright k fr' Hk Hfr'.
  cbn [pushed ptr_i] in Hk.
  destruct (decide (k = S (Z.to_nat (ptr_i st)))) as [->|Hne1].
  { rewrite (frame_at_pushed_top self n st fr Hlen Hi Hn) in Hfr'.
    injection Hfr' as <-. exact Hleft. }
  destruct (decide (k = Z.to_nat (ptr_i st))) as [->|Hne2].
  { rewrite (frame_at_pushed_slot self n st fr Hlen Hi Hn) in Hfr'.
    injection Hfr' as <-. exact Hright. }
  rewrite frame_at_pushed_below in Hfr' by lia.
  apply (Hall k fr'); [lia | exact Hfr'].
Qed.

Lemma test_in_probe self i fr d err e ok :
  In (Test d err e ok) (probe_events self i fr) ->
  d = fr_l fr /\ err = err_of self fr /\ e = fr_e fr /\ ok = accepts self fr.
Proof.
  unfold probe_events. cbn [app replicate]. intros Hin.
  repeat (destruct Hin as [Heq|Hin]; [try discriminate Heq|]).
  - injection Heq as <- <- <- <-. repeat split.
  - destruct Hin.
Qed.

Lemma no_test_in_push i d err e ok : ~ In (Test d err e ok) (push_events i).
Proof.
  unfold push_events. cbn [app replicate]. intros Hin.
  repeat (destruct Hin as [Heq|Hin]; [discriminate Heq|]). destruct Hin.
Qed.

(** If the frames on the stack satisfy [P], and [P] passes from a frame
    that is split to its two halves, then every test of the loop is the
    test of a frame that satisfies [P]. *)
Lemma while_loop_frames (P : frame -> Prop) self n_0 :
  (forall fr, P fr -> accepts self fr = false -> fr_l fr < n_0 ->
     P (left_child self fr) /\ P (right_child self fr)) ->
  forall fuel st, wf n_0 st -> stack_all P st ->
  forall d err e ok,
    In (Test d err e ok) (trace (while_loop fuel n_0 st self)) ->
    exists fr, P fr /\ d = fr_l fr /\ err = err_of self fr /\ e = fr_e fr /\
               ok = accepts self fr.
Proof.
  intros Hsplit. induction fuel as [|fuel IH]; intros st Hwf Hall d err e ok Hin.
  - cbn [while_loop] in Hin. destruct (ptr_i st >? -1); destruct Hin.
  - cbn [while_loop] in Hin. destruct (Z.gtb_spec (ptr_i st) (-1)) as [Hi|Hi]; [|destruct Hin].
    pose proof Hwf as (Hlen & Hb & Hd).
    destruct (frame_at_inside _ st (Z.to_nat (ptr_i st)) Hlen) as [fr Hfr]; [lia|].
    assert (Hi0 : 0 <= ptr_i st) by lia.
    assert (HP : P fr) by (apply (Hall (Z.to_nat (ptr_i st)) fr); [lia | exact Hfr]).
    assert (Hhere : In (Test d err e ok) (probe_events self (ptr_i st) fr) ->
              exists fr, P fr /\ d = fr_l fr /\ err = err_of self fr /\ e = fr_e fr /\
                         ok = accepts self fr).
    { intros Hp. exists fr. split; [exact HP | exact (test_in_probe _ _ _ _ _ _ _ Hp)]. }
    destruct (accepts self fr) eqn:Hacc.
    + destruct (wf_accepted self n_0 st fr Hwf Hi0 Hfr) as (Hwf' & _).
      destruct (while_loop_run self n_0 fuel _ Hwf') as (r & t & Hrun & _).
      pose proof (IH _ Hwf' (stack_all_accepted P self st fr Hall) d err e ok) as IH'.
      rewrite Hrun in IH'. unfold trace in IH'. cbn [snd] in IH'.
      rewrite (step_emit Iter _ self r self (probe_events self (ptr_i st) fr ++ t)) in Hin.
      2:{ exact (bind_run _ _ _ _ _ _ _ _ _
                   (loop_body_accept n_0 st self fr Hi0 Hfr Hacc) Hrun). }
      unfold trace in Hin. cbn [snd] in Hin.
      destruct Hin as [Heq|Hin]; [discriminate Heq|].
      apply in_app_or in Hin as [Hin|Hin]; [apply Hhere; exact Hin | apply IH'; exact Hin].
    + destruct (Z_lt_ge_dec (fr_l fr) n_0) as [Hlt|Hge].
      * destruct (wf_pushed self n_0 st fr Hwf Hi0 Hfr Hlt) as (Hk & Hwf' & _).
        destruct (while_loop_run self n_0 fuel _ Hwf') as (r & t & Hrun & _).
        destruct (Hsplit fr HP Hacc Hlt) as (Hleft & Hright).
        pose proof (IH _ Hwf' (stack_all_pushed P self _ st fr Hlen Hi0 Hk Hall Hleft Hright)
                      d err e ok) as IH'.
        rewrite Hrun in IH'. unfold trace in IH'. cbn [snd] in IH'.
        rewrite (step_emit Iter _ self r self
                   ((probe_events self (ptr_i st) fr ++ push_events (ptr_i st)) ++ t)) in Hin.
        2:{ exact (bind_run _ _ _ _ _ _ _ _ _
                     (loop_body_push n_0 st self fr _ Hi0 Hlen Hk Hfr Hacc Hlt) Hrun). }
        unfold trace in Hin. cbn [snd] in Hin.
        destruct Hin as [Heq|Hin]; [discriminate Heq|].
        apply in_app_or in Hin as [Hin|Hin]; [|apply IH'; exact Hin].
        apply in_app_or in Hin as [Hin|Hin]; [apply Hhere; exact Hin|].
        destruct (no_test_in_push _ _ _ _ _ Hin).
      * rewrite (step_emit Iter _ self (Ok (approx st)) self
                   ((probe_events self (ptr_i st) fr ++ [Print "Level exceeded"]) ++ [])) in Hin.
        2:{ exact (bind_run _ _ _ _ _ _ _ _ _
                     (loop_body_exceed n_0 st self fr Hi0 Hfr Hacc Hge) eq_refl). }
        unfold trace in Hin. cbn [snd] in Hin.
        destruct Hin as [Heq|Hin]; [discriminate Heq|].
        rewrite app_nil_r in Hin.
        apply in_app_or in Hin as [Hin|Hin]; [apply Hhere; exact Hin|].
        destruct Hin as [Heq|[]]. discriminate Heq.
Qed.

End StackFrames.

(** ** Over the reals: what the tests of [simp_adpt] compare *)

Section RealFrames.
Local Open Scope R_scope.
#[local] Existing Instance real_arith.

Variable self : @NumMethods real_arith.
Variables a b tol : R.
Variable n_0 : Z.

Ltac rfield := change (@num real_arith) with R; field.
Ltac rring := change (@num real_arith) with R; ring.

(** Simpson's rule over [[p, q]], as [simpsons_rule] computes it. *)
Definition simpson (p q : R) : R := value_of (simpsons_rule p q) self.

(** A frame of depth [l] describes one of the [2 ^ (l-1)] equal parts of
    [[a, b]]: it starts at [a0], its half-width is [h = (b-a) / 2^l], its
    tolerance is [10*tol / 2^(l-1)], its samples are the values of the
    target function at its two ends and its midpoint, and its [s] is
    Simpson's rule over it. *)
Definition dyadic_frame (fr : frame) : Prop :=
  (1 <= fr_l fr <= n_0)%Z /\
  fr_h fr = (b - a) / 2 ^ Z.to_nat (fr_l fr) /\
  (exists j : nat,
     (j < 2 ^ Z.to_nat (fr_l fr - 1))%nat /\ fr_a0 fr = a + INR j * (2 * fr_h fr)) /\
  fr_e fr = 10 * tol / 2 ^ Z.to_nat (fr_l fr - 1) /\
  fr_fa fr = func self (fr_a0 fr) /\
  fr_fc fr = func self (fr_a0 fr + fr_h fr) /\
  fr_fb fr = func self (fr_a0 fr + 2 * fr_h fr) /\
  fr_s fr = simpson (fr_a0 fr) (fr_a0 fr + 2 * fr_h fr).

Lemma pow2_nonzero k : 2 ^ k <> 0.
Proof. apply pow_nonzero. lra. Qed.

Lemma simpson_eq (p h fp fm fq : R) :
  fp = func self p -> fm = func self (p + h) -> fq = func self (p + 2 * h) ->
  h * (fp + 4 * fm + fq) / 3 = simpson p (p + 2 * h).
Proof.
  intros -> -> ->. unfold simpson. rewrite simpsons_rule_value.
  replace ((p + 2 * h + p) / 2) with (p + h) by rfield.
  rfield.
Qed.

Lemma dyadic_initial :
  (1 <= n_0)%Z -> dyadic_frame (initial_frame self a b tol).
Proof.
  intros Hn. unfold dyadic_frame, initial_frame.
  cbn [fr_l fr_h fr_a0 fr_e fr_fa fr_fc fr_fb fr_s nadd nsub nmul ndiv of_Z real_arith].
  assert (Hb : func self b = func self (a + 2 * ((b - a) / 2))) by (f_equal; rfield).
  change (Z.to_nat (1 - 1)) with 0%nat. change (Z.to_nat 1) with 1%nat.
  cbn [pow Nat.pow INR].
  split; [lia|]. split; [rfield|]. split.
  { exists 0%nat. split; [lia | cbn [INR]; rring]. }
  split; [rfield|]. split; [reflexivity|]. split; [reflexivity|].
  split; [exact Hb|].
  apply simpson_eq; [reflexivity | reflexivity | exact Hb].
Qed.

Lemma dyadic_children fr :
  dyadic_frame fr -> (fr_l fr < n_0)%Z ->
  dyadic_frame (left_child self fr) /\ dyadic_frame (right_child self fr).
Proof.
  intros (Hl & Hh & (j & Hj & Ha0) & He & Hfa & Hfc & Hfb & Hs) Hlt.
  assert (Hk : Z.to_nat (fr_l fr + 1) = S (Z.to_nat (fr_l fr))) by lia.
  assert (Hk' : Z.to_nat (fr_l fr + 1 - 1) = S (Z.to_nat (fr_l fr - 1))) by lia.
  pose proof (pow2_nonzero (Z.to_nat (fr_l fr))) as Hp.
  pose proof (pow2_nonzero (Z.to_nat (fr_l fr - 1))) as Hp'.
  unfold dyadic_frame, left_child, right_child, s1_of, s2_of, fd_of, fe_of.
  cbn [fr_l fr_h fr_a0 fr_e fr_fa fr_fc fr_fb fr_s nadd nsub nmul ndiv of_Z real_arith].
  rewrite Hk, Hk'. cbn [pow].
  split.
  - split; [lia|]. split; [rewrite Hh; rfield; exact Hp|]. split.
    { exists (2 * j)%nat. split; [cbn [Nat.pow]; lia|].
      rewrite Ha0, mult_INR. cbn [INR]. rfield. }
    split; [rewrite He; rfield; exact Hp'|].
    split; [exact Hfa|]. split; [reflexivity|].
    split; [rewrite Hfc; f_equal; rfield|].
    rewrite <- (simpson_eq (fr_a0 fr) (fr_h fr / 2) (fr_fa fr)
                  (func self (fr_a0 fr + fr_h fr / 2)) (fr_fc fr)).
    + rfield.
    + exact Hfa.
    + reflexivity.
    + rewrite Hfc. f_equal. rfield.
  - split; [lia|]. split; [rewrite Hh; rfield; exact Hp|]. split.
    { exists (2 * j + 1)%nat. split; [cbn [Nat.pow]; lia|].
      rewrite Ha0, plus_INR, mult_INR. cbn [INR]. rfield. }
    split; [rewrite He; rfield; exact Hp'|].
    split; [exact Hfc|]. split; [f_equal; rfield|].
    split; [rewrite Hfb; f_equal; rfield|].
    rewrite <- (simpson_eq (fr_a0 fr + fr_h fr) (fr_h fr / 2) (fr_fc fr)
                  (func self (fr_a0 fr + 3 * fr_h fr / 2)) (fr_fb fr)).
    + rfield.
    + exact Hfc.
    + f_equal. rfield.
    + rewrite Hfb. f_equal. rfield.
Qed.

Lemma dyadic_err fr :
  dyadic_frame fr ->
  let p := fr_a0 fr in
  let h := fr_h fr in
  @eq R (err_of self fr)
    (Rabs (simpson p (p + h) + simpson (p + h) (p + 2 * h) - simpson p (p + 2 * h))).
Proof.
  intros (Hl & Hh & _ & He & Hfa & Hfc & Hfb & Hs) p h.
  unfold err_of, s1_of, s2_of, fd_of, fe_of.
  cbn [nadd nsub nmul ndiv nabs of_Z real_arith]. fold p h. f_equal.
  rewrite Hs. fold p h. f_equal. f_equal.
  - replace (p + h) with (p + 2 * (h / 2)) at 1 by rfield.
    rewrite <- (simpson_eq p (h / 2) (fr_fa fr) (func self (p + h / 2)) (fr_fc fr)).
    + rfield.
    + exact Hfa.
    + reflexivity.
    + rewrite Hfc. fold p h. f_equal. rfield.
  - replace (p + 2 * h) with (p + h + 2 * (h / 2)) by rfield.
    rewrite <- (simpson_eq (p + h) (h / 2) (fr_fc fr) (func self (p + 3 * h / 2)) (fr_fb fr)).
    + rfield.
    + exact Hfc.
    + f_equal. rfield.
    + rewrite Hfb. fold p h. f_equal. rfield.
Qed.


(** What an acceptance test at depth [d] compares: for one of the
    [2 ^ (d-1)] equal parts [[p, p + 2h]] of [[a, b]], the distance between
    Simpson's rule over the part and the sum of Simpson's rule over its two
    halves, with the tolerance [10*tol / 2^(d-1)]. *)
Definition compares_simpson (ev : event) : Prop :=
  match ev with
  | Test d err e ok =>
      (1 <= d <= n_0)%Z /\
      e = 10 * tol / 2 ^ Z.to_nat (d - 1) /\
      ok = (err <.? e) /\
      exists j : nat,
        (j < 2 ^ Z.to_nat (d - 1))%nat /\
        let h := (b - a) / 2 ^ Z.to_nat d in
        let p := a + INR j * (2 * h) in
        err = Rabs (simpson p (p + h) + simpson (p + h) (p + 2 * h) - simpson p (p + 2 * h))
  | _ => True
  end.

Lemma dyadic_compares fr :
  dyadic_frame fr ->
  compares_simpson (Test (fr_l fr) (err_of self fr) (fr_e fr) (accepts self fr)).
Proof.
  intros Hfr. pose proof (dyadic_err fr Hfr) as Herr.
  destruct Hfr as (Hl & Hh & (j & Hj & Ha0) & He & _).
  cbn [compares_simpson]. split; [exact Hl|]. split; [exact He|].
  split; [reflexivity|]. exists j. split; [exact Hj|].
  cbv zeta in Herr. cbv zeta. rewrite <- Hh, <- Ha0. exact Herr.
Qed.

(** Over the reals and for [n_0 >= 1], every acceptance test of a run of
    [simp_adpt] is as [compares_simpson] says: the samples that the loop
    hands down from a frame to its halves are the values of the target
    function where the halves need them. *)
Theorem simp_adpt_tests_compare_simpson :
  (1 <= n_0)%Z ->
  Forall compares_simpson (trace (simp_adpt a b tol n_0 self)).
Proof.
  intros Hn. unfold simp_adpt.
  destruct (simp_adpt_fuel_run self (2 ^ Z.to_nat n_0) a b tol n_0 Hn)
    as (r & t & Hrun & Hloop & _).
  rewrite Hrun. unfold trace. cbn [snd]. apply Forall_app. split.
  { unfold init_events. cbn [app replicate]. repeat constructor. }
  apply Forall_forall. intros ev Hin.
  destruct ev as [x|s|j|j| |d err e ok]; try exact I.
  destruct (while_loop_frames dyadic_frame self n_0
              (fun fr Hfr _ Hlt => dyadic_children fr Hfr Hlt)
              (2 ^ Z.to_nat n_0) (initial self a b tol n_0)
              (wf_initial self a b tol n_0 Hn)) with (d := d) (err := err) (e := e) (ok := ok)
    as (fr & Hfr & -> & -> & -> & ->).
  - intros k fr Hk Hat. cbn [initial ptr_i] in Hk.
    assert (k = 0%nat) as -> by lia.
    rewrite (frame_at_initial self a b tol n_0 Hn) in Hat. injection Hat as <-.
    apply dyadic_initial. exact Hn.
  - rewrite Hloop. apply list_elem_of_In. exact Hin.
  - apply dyadic_compares. exact Hfr.
Qed.

(** A frame whose tolerance is not positive is not accepted. *)
Lemma rejects_nonpositive fr : fr_e fr <= 0 -> accepts self fr = false.
Proof.
  intros He. unfold accepts. apply nlt_real_false.
  unfold err_of. cbn [nabs real_arith].
  match goal with |- _ <= Rabs ?x => pose proof (Rabs_pos x) end.
  change (@num real_arith) with R in He. lra.
Qed.

(** From a stack whose top frame has a tolerance that is not positive: the
    loop splits it, finds its left half on top, and so on down to depth
    [n_0], where it gives up; nothing was added to the total. *)
Lemma while_loop_never_accepts :
  forall m fuel st fr,
  wf n_0 st -> (0 <= ptr_i st)%Z ->
  frame_at st (Z.to_nat (ptr_i st)) = Some fr ->
  fr_e fr <= 0 ->
  m = Z.to_nat (n_0 - fr_l fr) -> (m < fuel)%nat ->
  exists t,
    while_loop fuel n_0 st self = (Ok (approx st), self, t ++ [Print "Level exceeded"]) /\
    iters t = S m /\ calls t = (2 * S m)%nat.
Proof.
  induction m as [|m IH]; intros fuel st fr Hwf Hi0 Hfr He Hm Hfuel;
    (destruct fuel as [|fuel]; [lia|]);
    pose proof (rejects_nonpositive fr He) as Hacc;
    pose proof Hwf as (Hlen & Hb & Hd);
    cbn [while_loop]; (destruct (Z.gtb_spec (ptr_i st) (-1)); [|lia]).
  - exists (Iter :: probe_events self (ptr_i st) fr). split.
    + rewrite <- app_comm_cons. apply step_emit.
      rewrite <- (app_nil_r (_ ++ [Print _])).
      exact (bind_run _ _ _ _ _ _ _ _ _
               (loop_body_exceed n_0 st self fr Hi0 Hfr Hacc ltac:(lia)) eq_refl).
    + split; reflexivity.
  - assert (Hlt : (fr_l fr < n_0)%Z) by lia.
    destruct (wf_pushed self n_0 st fr Hwf Hi0 Hfr Hlt) as (Hk & Hwf' & _).
    destruct (IH fuel (pushed self st fr) (left_child self fr) Hwf') as (t & Hrun & Hit & Hcalls).
    + cbn [pushed ptr_i]. lia.
    + cbn [pushed ptr_i].
      replace (Z.to_nat (ptr_i st + 1)) with (S (Z.to_nat (ptr_i st))) by lia.
      exact (frame_at_pushed_top self _ st fr Hlen Hi0 Hk).
    + cbn [left_child fr_e ndiv of_Z real_arith].
      change (@num real_arith) with R in He. lra.
    + cbn [left_child fr_l]. lia.
    + lia.
    + exists (Iter :: (probe_events self (ptr_i st) fr ++ push_events (ptr_i st)) ++ t).
      split.
      * rewrite <- app_comm_cons, <- app_assoc. apply step_emit.
        exact (bind_run _ _ _ _ _ _ _ _ _
                 (loop_body_push n_0 st self fr _ Hi0 Hlen Hk Hfr Hacc Hlt) Hrun).
      * change (Iter :: (probe_events self (ptr_i st) fr ++ push_events (ptr_i st)) ++ t)
          with ([Iter] ++ (probe_events self (ptr_i st) fr ++ push_events (ptr_i st)) ++ t).
        rewrite !iters_app, !calls_app, Hit, Hcalls, calls_probe, iters_probe,
          calls_push, iters_push.
        change (iters [Iter]) with 1%nat. change (calls [Iter]) with 0%nat. lia.
Qed.

(** Over the reals, with [tol <= 0] and [n_0 >= 1], no test of [simp_adpt]
    accepts: the loop runs [n_0] times, down the left-most halves, prints
    the diagnostic and returns 0, after [3 + 2 * n_0] evaluations. *)
Theorem simp_adpt_nonpositive_tolerance :
  (1 <= n_0)%Z -> tol <= 0 ->
  exists t,
    simp_adpt a b tol n_0 self = (Ok 0, self, t ++ [Print "Level exceeded"]) /\
    iters t = Z.to_nat n_0 /\
    calls t = Z.to_nat (3 + 2 * n_0).
Proof.
  intros Hn Htol.
  destruct (while_loop_never_accepts (Z.to_nat (n_0 - 1)) (2 ^ Z.to_nat n_0)
              (initial self a b tol n_0) (initial_frame self a b tol)
              (wf_initial self a b tol n_0 Hn)) as (t & Hrun & Hit & Hcalls).
  - cbn. lia.
  - apply frame_at_initial. exact Hn.
  - cbn [initial_frame fr_e nmul of_Z real_arith]. lra.
  - reflexivity.
  - pose proof (Nat.pow_gt_lin_r 2 (Z.to_nat n_0) ltac:(lia)). lia.
  - exists (@init_events real_arith a b ++ t). split.
    + unfold simp_adpt, simp_adpt_fuel. rewrite <- app_assoc.
      exact (bind_run _ _ _ _ _ _ _ _ _ (simp_adpt_init_run self a b tol n_0 Hn) Hrun).
    + rewrite iters_app, calls_app, Hit, Hcalls.
      change (iters (@init_events real_arith a b)) with 0%nat.
      change (calls (@init_events real_arith a b)) with 3%nat. lia.
Qed.

End RealFrames.

(** ** Over the reals: the composite Simpson rule, even and odd [n] *)

Section RealSimpComp.
Local Open Scope R_scope.
#[local] Existing Instance real_arith.

Lemma simpsons_rule_cubic (c0 c1 c2 c3 p q : R) :
  value_of (simpsons_rule p q) (polynomial [c0; c1; c2; c3]) =
    antiderivative [c0; c1; c2; c3] q - antiderivative [c0; c1; c2; c3] p.
Proof. rewrite simpsons_rule_value. cbn. field. Qed.

Lemma simpson_panels_cubic (c0 c1 c2 c3 a h : R) m :
  simpson_panels (polynomial [c0; c1; c2; c3]) a h m =
    antiderivative [c0; c1; c2; c3] (node a h (2 * m))
    - antiderivative [c0; c1; c2; c3] (node a h 0).
Proof.
  unfold simpson_panels. induction m as [|m IH].
  - change (2 * 0)%nat with 0%nat. cbn [sum_to]. ring.
  - cbn [sum_to]. rewrite IH, simpsons_rule_cubic.
    replace (2 * S m)%nat with (S (S (2 * m))) by lia. ring.
Qed.

(** With an even [n >= 2], [simp_comp] returns the integral of every
    polynomial of degree at most 3. *)
Theorem simp_comp_exact_degree_3 (c0 c1 c2 c3 a b : R) (n : Z) :
  (2 <= n)%Z -> (n mod 2 = 0)%Z ->
  let self := polynomial [c0; c1; c2; c3] in
  let F := antiderivative [c0; c1; c2; c3] in
  (forall x, derivable_pt_lim F x (func self x)) /\
  outcome (simp_comp a b n self) = Ok (F b - F a).
Proof.
  intros Hn Heven self F. split; [intros x; apply antiderivative_derivative|].
  destruct (simp_comp_panels self a b n Hn Heven) as (Ha & Hb & Hrun).
  rewrite Hrun. f_equal. unfold self. rewrite simpson_panels_cubic, Ha, Hb. reflexivity.
Qed.

(** The instance whose target function is constant. *)
Definition constant (c : R) : @NumMethods real_arith :=
  @Build_NumMethods real_arith (fun _ => c).

Lemma sum_to_constant (c : R) k : sum_to (fun _ => c) k = INR k * c.
Proof.
  induction k as [|k IH]; [cbn; ring|].
  cbn [sum_to]. rewrite IH, S_INR. ring.
Qed.

(** The pair [(x_odd, x_even)] of [simp_comp] after the indices
    [1 .. 2j]. *)
Lemma simp_comp_sums_nodes_odd self (a h : R) j :
  simp_comp_sums self a h (range 1 (1 + Z.of_nat (2 * j))) (0, 0) =
    (sum_to (fun k => func self (node a h (S (2 * k)))) j,
     sum_to (fun k => func self (node a h (S (S (2 * k))))) j).
Proof.
  induction j as [|j IH].
  - reflexivity.
  - replace (2 * S j)%nat with (S (S (2 * j))) by lia.
    do 2 rewrite range_snoc. unfold simp_comp_sums. rewrite !fold_left_app.
    fold (simp_comp_sums self a h (range 1 (1 + Z.of_nat (2 * j))) (0, 0)).
    rewrite IH. cbn [fold_left].
    replace (1 + Z.of_nat (2 * j))%Z with (Z.of_nat (S (2 * j))) by lia.
    replace (1 + Z.of_nat (S (2 * j)))%Z with (Z.of_nat (S (S (2 * j)))) by lia.
    rewrite simp_comp_step_odd, simp_comp_step_even.
    + reflexivity.
    + replace (Z.of_nat (S (S (2 * j)))) with ((Z.of_nat j + 1) * 2)%Z by lia.
      apply Z_mod_mult.
    + replace (Z.of_nat (S (2 * j))) with (1 + Z.of_nat j * 2)%Z by lia.
      rewrite Z_mod_plus_full. reflexivity.
Qed.

(** With an odd [n], [simp_comp] is off already on constants: it returns
    the integral [c * (b - a)] less its [3n]-th part. *)
Theorem simp_comp_odd_n_constant (c a b : R) (n : Z) :
  (1 <= n)%Z -> (n mod 2 = 1)%Z ->
  outcome (simp_comp a b n (constant c)) = Ok (c * (b - a) * (1 - 1 / (3 * IZR n))).
Proof.
  intros Hn Hodd.
  pose proof (Z.div_mod n 2 ltac:(lia)) as Hdiv. rewrite Hodd in Hdiv.
  set (j := Z.to_nat (n / 2)).
  assert (Hnj : n = (1 + Z.of_nat (2 * j))%Z) by lia.
  rewrite (simp_comp_run (constant c) a b n (is_zero_real n ltac:(lia))).
  unfold outcome. cbn [fst]. f_equal.
  replace (range 1 n) with (range 1 (1 + Z.of_nat (2 * j))) by (f_equal; lia).
  rewrite simp_comp_sums_nodes_odd. cbn [func constant].
  rewrite !sum_to_constant.
  cbn [nadd nsub nmul ndiv of_Z real_arith].
  assert (Hn' : IZR n = 2 * INR j + 1).
  { rewrite Hnj, plus_IZR, <- INR_IZR_INZ, mult_INR. cbn [INR]. ring. }
  rewrite Hn'.
  assert (0 <= INR j) by apply pos_INR.
  change (@num real_arith) with R. field. lra.
Qed.

End RealSimpComp.

(** ** On binary64: a zero step *)

From Stdlib Require FloatAxioms.

Lemma is_zero_cases (h : float) :
  PrimFloat.is_zero h = true -> h = 0%float \/ h = (-0)%float.
Proof.
  unfold PrimFloat.is_zero. rewrite FloatAxioms.eqb_spec. intros H.
  rewrite <- (FloatAxioms.SF2Prim_Prim2SF h).
  destruct (Prim2SF h) as [s|s| |s m e].
  - destruct s; [right | left]; reflexivity.
  - destruct s; discriminate H.
  - discriminate H.
  - destruct s; discriminate H.
Qed.

(** With a step [h] that is zero, of either sign, every difference formula
    evaluates the target function at all its sample points and then raises
    [ZeroDivisionError] at its division. *)
Theorem difference_formulas_zero_step (self : @NumMethods float_arith) (x h : float) :
  PrimFloat.is_zero h = true ->
  outcome (@for_diff float_arith x h self) = Raise ZeroDivisionError /\
  outcome (@end_3diff float_arith x h self) = Raise ZeroDivisionError /\
  outcome (@mid_3diff float_arith x h self) = Raise ZeroDivisionError /\
  outcome (@end_5diff float_arith x h self) = Raise ZeroDivisionError /\
  outcome (@mid_5diff float_arith x h self) = Raise ZeroDivisionError /\
  outcome (@second_diff float_arith x h self) = Raise ZeroDivisionError /\
  map (fun m => calls (trace (m self)))
    [@for_diff float_arith x h; @end_3diff float_arith x h; @mid_3diff float_arith x h;
     @end_5diff float_arith x h; @mid_5diff float_arith x h; @second_diff float_arith x h] =
    [2; 3; 2; 5; 4; 3]%nat.
Proof.
  intros Hh. destruct (is_zero_cases h Hh) as [-> | ->]; repeat split; reflexivity.
Qed.

(** ** On binary64: a step whose square is out of range *)

(** With a finite step [h] whose square is not finite, [second_diff]
    evaluates the target function at its three sample points and then
    raises [OverflowError] at [h**2], before its division. *)
Theorem second_diff_square_out_of_range (self : @NumMethods float_arith) (x h : float) :
  PrimFloat.is_infinity (h * h) = true -> PrimFloat.is_infinity h = false ->
  @second_diff float_arith x h self =
    (Raise OverflowError, self, [Call (x - h)%float; Call x; Call (x + h)%float]).
Proof.
  intros Hsq Hh. unfold second_diff. do 3 run_step.
  unfold bind, pysquare. cbn [is_inf nmul float_arith]. rewrite Hsq, Hh. reflexivity.
Qed.

(** ** [gquad_adpt]: the accumulator *)

Section GquadSum.
Context {A : Arith}.

(** Whether an outcome is a value, an exception or a lack of fuel. *)
Definition same_kind {X} (r r' : res X) : Prop :=
  match r, r' with
  | Ok _, Ok _ => True
  | Raise e, Raise e' => e = e'
  | Timeout, Timeout => True
  | _, _ => False
  end.

Lemma gquad_adpt_fuel_sum_unseen self n_0 fuel :
  forall a b level current_sum current_sum' tol,
  trace (gquad_adpt_fuel fuel a b level current_sum n_0 tol self) =
  trace (gquad_adpt_fuel fuel a b level current_sum' n_0 tol self) /\
  same_kind (outcome (gquad_adpt_fuel fuel a b level current_sum n_0 tol self))
            (outcome (gquad_adpt_fuel fuel a b level current_sum' n_0 tol self)).
Proof.
  induction fuel as [|fuel IH]; intros a b level cs cs' tol.
  - split; [reflexivity | exact I].
  - destruct (Z_gt_le_dec (level + 1) n_0) as [Hgt|Hle].
    + rewrite !(gquad_adpt_fuel_max_depth self fuel a b level _ n_0 tol Hgt).
      split; [reflexivity | exact I].
    + rewrite !(gquad_adpt_fuel_tested self fuel a b level _ n_0 tol Hle).
      destruct (gauss_err self a b <.? tol); [split; [reflexivity | exact I]|].
      destruct (gquad_adpt_fuel_run self n_0 fuel a (midpoint a b) (level + 1)
                  cs gquad_default_tol) as (r1 & t1 & Hrun1 & Hraise1 & _).
      destruct (gquad_adpt_fuel_run self n_0 fuel a (midpoint a b) (level + 1)
                  cs' gquad_default_tol) as (r1' & t1' & Hrun1' & Hraise1' & _).
      destruct (IH a (midpoint a b) (level + 1) cs cs' gquad_default_tol) as (Ht1 & Hk1).
      rewrite Hrun1, Hrun1' in Ht1, Hk1.
      unfold trace, outcome in Ht1, Hk1. cbn [fst snd] in Ht1, Hk1. subst t1'.
      destruct r1 as [v1|e|], r1' as [v1'|e'|]; try destruct Hk1;
        try (destruct (Hraise1 e eq_refl)).
      * destruct (gquad_adpt_fuel_run self n_0 fuel (midpoint a b) b (level + 1)
                    v1 gquad_default_tol) as (r2 & t2 & Hrun2 & _).
        destruct (gquad_adpt_fuel_run self n_0 fuel (midpoint a b) b (level + 1)
                    v1' gquad_default_tol) as (r2' & t2' & Hrun2' & _).
        destruct (IH (midpoint a b) b (level + 1) v1 v1' gquad_default_tol) as (Ht2 & Hk2).
        rewrite Hrun2, Hrun2' in Ht2, Hk2.
        unfold trace, outcome in Ht2, Hk2. cbn [fst snd] in Ht2, Hk2. subst t2'.
        rewrite (bind_run _ _ _ _ _ _ _ _ _ Hrun1 Hrun2).
        rewrite (bind_run _ _ _ _ _ _ _ _ _ Hrun1' Hrun2').
        split; [reflexivity | exact Hk2].
      * rewrite (bind_timeout _ _ _ _ _ Hrun1), (bind_timeout _ _ _ _ _ Hrun1').
        split; [reflexivity | exact I].
Qed.

(** Where [gquad_adpt] evaluates the target function, what its tests
    compare and which diagnostics it prints do not depend on the
    [current_sum] it is given. *)
Theorem gquad_adpt_subdivision_ignores_sum self a b level current_sum current_sum' n_0 tol :
  trace (gquad_adpt a b level current_sum n_0 tol self) =
  trace (gquad_adpt a b level current_sum' n_0 tol self).
Proof. apply gquad_adpt_fuel_sum_unseen. Qed.

End GquadSum.

(** ** Over the reals: bounds in the other order *)

Section RealReversed.
Local Open Scope R_scope.
#[local] Existing Instance real_arith.

Lemma gquad_nodes_reversed (a b : R) :
  @eq R (gquad_left b a) (gquad_right a b) /\ @eq R (gquad_right b a) (gquad_left a b).
Proof. unfold gquad_left, gquad_right. cbn. split; field. Qed.

(** The bounds are not compared: given in the other order, each
    single-panel rule returns the opposite number, and over an interval
    reduced to a point it returns 0. *)
Theorem single_panel_rules_reversed self (a b : R) :
  value_of (trapezoid_rule b a) self = - value_of (trapezoid_rule a b) self /\
  value_of (simpsons_rule b a) self = - value_of (simpsons_rule a b) self /\
  value_of (gquad b a) self = - value_of (gquad a b) self /\
  value_of (trapezoid_rule a a) self = 0 /\
  value_of (simpsons_rule a a) self = 0 /\
  value_of (gquad a a) self = 0.
Proof.
  destruct (gquad_nodes_reversed a b) as (Hl & Hr).
  assert (Hg : forall p q, value_of (gquad p q) self = gquad_value self p q) by reflexivity.
  rewrite !trapezoid_rule_value, !simpsons_rule_value, !Hg.
  unfold gquad_value. rewrite Hl, Hr.
  replace ((a + b) / 2) with ((b + a) / 2) by field.
  cbn [nadd nsub nmul ndiv of_Z real_arith].
  repeat split; field.
Qed.

End RealReversed.

(** ** The properties above at concrete inputs *)

Lemma for_diff_exact_degree_1_witness :
  @for_diff real_arith 1%R 2%R (polynomial [3; 5]%R) =
    (Ok (dpoly [3; 5]%R 1%R), polynomial [3; 5]%R,
     [@Call real_arith (1 + 2)%R; @Call real_arith 1%R]).
Proof. exact (proj2 (for_diff_exact_degree_1 3 5 1 2 ltac:(lra))). Defined.

Lemma end_3diff_exact_degree_2_witness :
  outcome (@end_3diff real_arith 1%R 2%R (polynomial [3; 5; 7]%R)) =
    Ok (dpoly [3; 5; 7]%R 1%R).
Proof.
  rewrite (proj2 (end_3diff_exact_degree_2 3 5 7 1 2 ltac:(lra))). reflexivity.
Defined.

Lemma mid_3diff_exact_degree_2_witness :
  outcome (@mid_3diff real_arith 1%R 2%R (polynomial [3; 5; 7]%R)) =
    Ok (dpoly [3; 5; 7]%R 1%R).
Proof.
  rewrite (proj2 (mid_3diff_exact_degree_2 3 5 7 1 2 ltac:(lra))). reflexivity.
Defined.

Lemma end_5diff_exact_degree_4_witness :
  outcome (@end_5diff real_arith 1%R 2%R (polynomial [3; 5; 7; 11; 13]%R)) =
    Ok (dpoly [3; 5; 7; 11; 13]%R 1%R).
Proof.
  rewrite (proj2 (end_5diff_exact_degree_4 3 5 7 11 13 1 2 ltac:(lra))). reflexivity.
Defined.

Lemma mid_5diff_exact_degree_4_witness :
  outcome (@mid_5diff real_arith 1%R 2%R (polynomial [3; 5; 7; 11; 13]%R)) =
    Ok (dpoly [3; 5; 7; 11; 13]%R 1%R).
Proof.
  rewrite (proj2 (mid_5diff_exact_degree_4 3 5 7 11 13 1 2 ltac:(lra))). reflexivity.
Defined.

Lemma second_diff_exact_degree_3_witness :
  outcome (@second_diff real_arith 1%R 2%R (polynomial [3; 5; 7; 11]%R)) =
    Ok (ddpoly [3; 5; 7; 11]%R 1%R).
Proof.
  rewrite (proj2 (proj2 (second_diff_exact_degree_3 3 5 7 11 1 2 ltac:(lra)))).
  reflexivity.
Defined.



Lemma trap_comp_panels_and_left_endpoint_witness :
  outcome (@trap_comp real_arith 0%R 1%R 2 (polynomial [1%R])) =
    Ok (trapezoid_panels (polynomial [1%R]) 0 ((1 - 0) / 2) 2
        + (1 - 0) / 2 * func (polynomial [1%R]) 0)%R.
Proof.
  exact (proj2 (proj2 (trap_comp_panels_and_left_endpoint (polynomial [1%R]) 0 1 2
                         ltac:(lia)))).
Defined.

Lemma simp_comp_sum_of_panels_witness :
  outcome (@simp_comp real_arith 0%R 1%R 4 (polynomial [1%R])) =
    Ok (simpson_panels (polynomial [1%R]) 0 ((1 - 0) / 4) 2).
Proof.
  exact (proj2 (proj2 (simp_comp_sum_of_panels (polynomial [1%R]) 0 1 4
                         ltac:(lia) eq_refl))).
Defined.

Lemma gquad_adpt_exact_degree_3_witness :
  @gquad_adpt real_arith 0%R 1%R 0 0%R 20 1%R (polynomial [3; 5; 7; 11]%R) =
    (Ok (0 + (antiderivative [3; 5; 7; 11] 1 - antiderivative [3; 5; 7; 11] 0))%R,
     polynomial [3; 5; 7; 11]%R,
     @panel_events real_arith 0%R 1%R ++ [@Test real_arith (0 + 1) 0%R 1%R true]).
Proof.
  exact (proj2 (gquad_adpt_exact_degree_3 3 5 7 11 0 1 0 1 0 20 ltac:(lia) ltac:(lra))).
Defined.

Lemma simp_adpt_without_depth_witness :
  @simp_adpt float_arith 0%float 1%float 0.125%float (-3) quartic =
    (Raise ValueError, quartic, [Ptr 0]).
Proof.
  exact (@simp_adpt_without_depth float_arith quartic 0%float 1%float 0.125%float (-3)
           ltac:(lia)).
Defined.

Lemma simp_adpt_accepts_at_once_witness :
  outcome (@simp_adpt real_arith 0%R 1%R 1%R 20 (polynomial [3; 5; 7; 11]%R)) =
  outcome (@simp_comp real_arith 0%R 1%R 4 (polynomial [3; 5; 7; 11]%R)).
Proof.
  apply (simp_adpt_accepts_at_once (polynomial [3; 5; 7; 11]%R) 0 1 1 20 ltac:(lia)).
  unfold accepts.
  rewrite (proj1 (simpson_halves_cubic 3 5 7 11 0 1 1)).
  apply nlt_real_true. cbn. lra.
Defined.

Lemma simp_adpt_exact_degree_3_witness :
  outcome (@simp_adpt real_arith 0%R 1%R 1%R 20 (polynomial [3; 5; 7; 11]%R)) =
    Ok (antiderivative [3; 5; 7; 11] 1 - antiderivative [3; 5; 7; 11] 0)%R.
Proof.
  exact (proj1 (proj2 (simp_adpt_exact_degree_3 3 5 7 11 0 1 1 20 ltac:(lia) ltac:(lra)))).
Defined.

Lemma simp_adpt_tests_compare_simpson_witness :
  Forall (compares_simpson (polynomial [3; 5; 7; 11; 13]%R) 0 1 1 3)
    (trace (@simp_adpt real_arith 0%R 1%R 1%R 3 (polynomial [3; 5; 7; 11; 13]%R))).
Proof.
  exact (simp_adpt_tests_compare_simpson (polynomial [3; 5; 7; 11; 13]%R) 0 1 1 3
           ltac:(lia)).
Defined.

Lemma simp_adpt_nonpositive_tolerance_witness :
  exists t,
    @simp_adpt real_arith 0%R 1%R 0%R 3 (polynomial [3; 5; 7; 11; 13]%R) =
      (Ok 0%R, polynomial [3; 5; 7; 11; 13]%R, t ++ [Print "Level exceeded"]) /\
    iters t = 3%nat /\ calls t = 9%nat.
Proof.
  exact (simp_adpt_nonpositive_tolerance (polynomial [3; 5; 7; 11; 13]%R) 0 1 0 3
           ltac:(lia) ltac:(lra)).
Defined.

Lemma simp_comp_exact_degree_3_witness :
  outcome (@simp_comp real_arith 0%R 1%R 6 (polynomial [3; 5; 7; 11]%R)) =
    Ok (antiderivative [3; 5; 7; 11] 1 - antiderivative [3; 5; 7; 11] 0)%R.
Proof.
  exact (proj2 (simp_comp_exact_degree_3 3 5 7 11 0 1 6 ltac:(lia) eq_refl)).
Defined.

Lemma simp_comp_odd_n_constant_witness :
  outcome (@simp_comp real_arith 0%R 1%R 3 (constant 1)) =
    Ok (1 * (1 - 0) * (1 - 1 / (3 * 3)))%R.
Proof. exact (simp_comp_odd_n_constant 1 0 1 3 ltac:(lia) eq_refl). Defined.

Lemma second_diff_square_out_of_range_witness :
  @second_diff float_arith 1%float 0x1p700%float quartic =
    (Raise OverflowError, quartic,
     [Call (1 - 0x1p700)%float; Call 1%float; Call (1 + 0x1p700)%float]).
Proof.
  exact (second_diff_square_out_of_range quartic 1%float 0x1p700%float eq_refl eq_refl).
Defined.

Lemma difference_formulas_zero_step_witness :
  outcome (@second_diff float_arith 1%float (-0)%float quartic) = Raise ZeroDivisionError.
Proof.
  exact (proj1 (proj2 (proj2 (proj2 (proj2 (proj2
           (difference_formulas_zero_step quartic 1%float (-0)%float eq_refl))))))).
Defined.
